(** * AssaultCube server reader: a shallow embedding of
      [assaultcube_server_reader.py] and the properties of its decoders.

    The Python module decodes the answers of an AssaultCube server to the
    "extended ping" UDP queries.  Its functions are embedded here as Rocq
    functions of the same names:

    - Python [bytes] are lists of [Byte.byte];
    - Python values whose type varies at run time (the items of a tuple
      returned by [struct.unpack], the values of the returned dictionaries)
      are elements of [pyval];
    - a dictionary with string keys is a [gmap string pyval];
    - a raised exception is the [Raise] alternative of [result], threaded
      through the code by the monad of [result];
    - the socket is the queue of datagrams that [recv]/[recvfrom] will
      deliver, passed explicitly;
    - the [print] calls, which only write diagnostics, are left out. *)

From Stdlib Require Import ZArith Strings.Byte Strings.Ascii DecimalString.
From Equations Require Import Equations.
From stdpp Require Import base option list strings gmap.

Local Open Scope Z_scope.

(** ** Python values and exceptions *)

Abbreviation bytes := (list byte).

(** The exceptions the module can raise.  [IndexError] and [AttributeError]
    only arise on values of an unexpected dynamic type; they are part of the
    model so that every operation is total.  [not_modelled] is no Python
    exception: it marks the one operation ([str] of a value that is neither
    an integer nor a string) whose Python result the model does not define. *)
Inductive exn :=
| struct_error          (* struct.error: unpack requires a buffer of n bytes *)
| UnicodeDecodeError
| IndexError
| AttributeError
| socket_timeout
| not_modelled.

Inductive result (A : Type) :=
| Ok (a : A)
| Raise (e : exn).
Arguments Ok {A} a.
Arguments Raise {A} e.

#[global] Instance result_ret : MRet result := @Ok.
#[global] Instance result_bind : MBind result := λ A B f m,
  match m with
  | Ok a => f a
  | Raise e => Raise e
  end.

#[global] Instance byte_eq_dec : EqDecision byte := Byte.byte_eq_dec.

(** The dynamically typed values that occur in the module. [PChar c] is the
    [bytes] object of length one that the struct format ["c"] produces. *)
#[warnings="-register-all"]
Inductive pyval :=
| PInt (n : Z)
| PChar (c : byte)
| PStr (s : string)
| PTuple (t : list pyval)
| PList (l : list pyval).

(** Python's [==] on these values. *)
Fixpoint py_eq (v w : pyval) {struct v} : bool :=
  let fix all_eq (vs ws : list pyval) {struct vs} : bool :=
    match vs, ws with
    | [], [] => true
    | v :: vs, w :: ws => py_eq v w && all_eq vs ws
    | _, _ => false
    end in
  match v, w with
  | PInt n, PInt m => (n =? m)
  | PChar c, PChar d => Byte.eqb c d
  | PStr s, PStr t => bool_decide (s = t)
  | PTuple vs, PTuple ws => all_eq vs ws
  | PList vs, PList ws => all_eq vs ws
  | _, _ => false
  end.

Fixpoint pyval_eq_dec (v w : pyval) : Decision (v = w).
Proof.
  refine (
    let _ : EqDecision pyval := pyval_eq_dec in
    match v, w with
    | PInt n, PInt m => cast_if (decide (n = m))
    | PChar c, PChar d => cast_if (decide (c = d))
    | PStr s, PStr t => cast_if (decide (s = t))
    | PTuple s, PTuple t => cast_if (decide (s = t))
    | PList s, PList t => cast_if (decide (s = t))
    | _, _ => right _
    end); abstract congruence.
Defined.
#[global] Instance pyval_eq_decision : EqDecision pyval := pyval_eq_dec.

(** [v in container] for a tuple [container]. *)
Definition py_in (v : pyval) (container : list pyval) : bool :=
  existsb (py_eq v) container.

(** [t[i]] on a tuple. *)
Definition getitem (t : list pyval) (i : nat) : result pyval :=
  match t !! i with
  | Some v => Ok v
  | None => Raise IndexError
  end.

(** [str(v)]: the decimal text of an integer, a string itself. *)
Definition str (v : pyval) : result string :=
  match v with
  | PInt n => Ok (NilZero.string_of_int (Z.to_int n))
  | PStr s => Ok s
  | _ => Raise not_modelled
  end.

(** [sep.join(parts)]. *)
Definition join (sep : string) (parts : list string) : string :=
  String.concat sep parts.

(** [char.decode("utf-8")] on a [bytes] object of length one: the single
    byte is a complete UTF-8 sequence exactly when it is below 0x80. *)
Definition decode_utf8 (char : pyval) : result string :=
  match char with
  | PChar c =>
      if (Z.of_N (Byte.to_N c) <? 128)
      then Ok (String (ascii_of_byte c) EmptyString)
      else Raise UnicodeDecodeError
  | _ => Raise AttributeError
  end.

(** ** The [struct] module, native mode *)

Inductive byteorder := little | big.

Inductive fmt_char :=
| fmt_b   (* signed char *)
| fmt_B   (* unsigned char *)
| fmt_H   (* unsigned short *)
| fmt_c.  (* char: a bytes object of length 1 *)

Definition fmt_char_of_ascii (a : ascii) : option fmt_char :=
  if bool_decide (a = "b"%char) then Some fmt_b
  else if bool_decide (a = "B"%char) then Some fmt_B
  else if bool_decide (a = "H"%char) then Some fmt_H
  else if bool_decide (a = "c"%char) then Some fmt_c
  else None.

Fixpoint parse_fmt (fmt : string) : option (list fmt_char) :=
  match fmt with
  | EmptyString => Some []
  | String a fmt' =>
      c ← fmt_char_of_ascii a;
      cs ← parse_fmt fmt';
      Some (c :: cs)
  end.

(** Size of an item; in native mode it is also its alignment. *)
Definition item_size (c : fmt_char) : nat :=
  match c with
  | fmt_H => 2%nat
  | _ => 1%nat
  end.

(** Padding inserted before an item of size [sz] at offset [off]. *)
Definition padding (off sz : nat) : nat := ((sz - off `mod` sz) `mod` sz)%nat.

Fixpoint calcsize_from (off : nat) (cs : list fmt_char) : nat :=
  match cs with
  | [] => off
  | c :: cs' => calcsize_from (off + padding off (item_size c) + item_size c) cs'
  end.

(** [struct.calcsize(fmt)]; a bad format character raises [struct.error]. *)
Definition calcsize (fmt : string) : result nat :=
  match parse_fmt fmt with
  | Some cs => Ok (calcsize_from 0 cs)
  | None => Raise struct_error
  end.

Definition unsigned8 (b : byte) : Z := Z.of_N (Byte.to_N b).

Definition signed8 (b : byte) : Z :=
  if unsigned8 b <? 128 then unsigned8 b else unsigned8 b - 256.

Definition unsigned16 (bo : byteorder) (b0 b1 : byte) : Z :=
  match bo with
  | little => unsigned8 b0 + 256 * unsigned8 b1
  | big => 256 * unsigned8 b0 + unsigned8 b1
  end.

(** Decode the items of [cs] from [buf], whose first byte is at offset
    [off] of the buffer given to [struct.unpack]. *)
Fixpoint unpack_from (bo : byteorder) (off : nat) (cs : list fmt_char)
    (buf : bytes) : option (list pyval) :=
  match cs with
  | [] => Some []
  | c :: cs' =>
      let pad := padding off (item_size c) in
      let off' := (off + pad + item_size c)%nat in
      match c, drop pad buf with
      | fmt_b, x :: buf' => vs ← unpack_from bo off' cs' buf'; Some (PInt (signed8 x) :: vs)
      | fmt_B, x :: buf' => vs ← unpack_from bo off' cs' buf'; Some (PInt (unsigned8 x) :: vs)
      | fmt_c, x :: buf' => vs ← unpack_from bo off' cs' buf'; Some (PChar x :: vs)
      | fmt_H, x0 :: x1 :: buf' =>
          vs ← unpack_from bo off' cs' buf'; Some (PInt (unsigned16 bo x0 x1) :: vs)
      | _, _ => None
      end
  end.

(** [struct.unpack(fmt, buf)]: the buffer must have exactly the size of
    the format. *)
Definition struct_unpack (bo : byteorder) (fmt : string) (buf : bytes)
    : result (list pyval) :=
  size ← calcsize fmt;
  if bool_decide (length buf = size) then
    match parse_fmt fmt ≫= λ cs, unpack_from bo 0 cs buf with
    | Some vs => Ok vs
    | None => Raise struct_error
    end
  else Raise struct_error.

(** ** The decoders of the module *)

Section Decoders.

(** [sys.byteorder] of the machine the module runs on: formats without a
    prefix use the native byte order. *)
Variable bo : byteorder.

(** [unpack_helper(fmt, data)]: the unpacked tuple, the data without the
    unpacked bytes, the unpacked bytes. *)
Definition unpack_helper (fmt : string) (data : bytes)
    : result (list pyval * bytes * bytes) :=
  size ← calcsize fmt;
  items ← struct_unpack bo fmt (take size data);
  mret (items, drop size data, take size data).

Definition getint (data : bytes) : result (pyval * bytes) :=
  '(my_int, data, _) ← unpack_helper "b" data;
  first ← getitem my_int 0;
  '(my_int, data) ←
    (if py_eq first (PInt (-128))
     then '(my_int, data, _) ← unpack_helper "H" data; mret (my_int, data)
     else mret (my_int, data));
  item ← getitem my_int 0;
  mret (item, data).

Definition getchar (data : bytes) : result (pyval * bytes) :=
  '(my_char, data, _) ← unpack_helper "c" data;
  item ← getitem my_char 0;
  mret (item, data).

(** The loop of [getstring]; [my_string] is the text read so far. *)
Equations? getstring_loop (my_string : string) (data : bytes)
    : result (string * bytes) by wf (length data) lt :=
  getstring_loop my_string [] := Ok (my_string, []);
  getstring_loop my_string data with Logic.inspect (getchar data) := {
    | exist _ (Raise e) _ => Raise e
    | exist _ (Ok (char, data')) Hchar =>
        if py_eq char (PChar x00) then Ok (my_string, data')
        else
          match decode_utf8 char with
          | Ok s => getstring_loop (my_string +:+ s) data'
          | Raise e => Raise e
          end }.
Proof.
  injection Hchar as _ <-. rewrite drop_0. simpl. lia.
Qed.

Definition getstring (data : bytes) : result (string * bytes) :=
  getstring_loop "" data.

(** Lines 82-92 of [get_server_info_and_namelist]: the two mode bytes are
    turned into a "known" value; an unknown pair stays the tuple it was. *)
Definition resolve_mastermode (data : bytes) : result (pyval * bytes) :=
  '(mastermode, data, _) ← unpack_helper "bb" data;
  first ← getitem mastermode 0;
  '(mastermode, data) ←
    (if py_eq first (PInt (-128))
     then '(_, data, _) ← unpack_helper "bb" data; mret (PStr "match", data)
     else mret (PTuple mastermode, data));
  let mastermode :=
    if py_in mastermode [PTuple [PInt 0; PInt 1]; PTuple [PInt 1; PInt 1]]
    then PStr "open"
    else if py_in mastermode [PTuple [PInt 64; PInt 1]; PTuple [PInt 65; PInt 1]]
    then PStr "private"
    else mastermode in
  mret (mastermode, data).

(** The loop [while data != b"\x00"] that reads the player names.  The loop
    need not terminate, so it runs on [fuel]: [None] says that the loop is
    still running after [fuel] tests of its condition. *)
Fixpoint playerlist_loop (fuel : nat) (data : bytes) (playerlist : list pyval)
    : option (result (list pyval)) :=
  match fuel with
  | O => None
  | S fuel' =>
      if bool_decide (data ≠ [x00]) then
        match getstring data with
        | Ok (player, data) => playerlist_loop fuel' data (playerlist ++ [PStr player])
        | Raise e => Some (Raise e)
        end
      else Some (Ok playerlist)
  end.

(** [socket.recv(bufsize)] and [socket.recvfrom(bufsize)] on a socket whose
    pending datagrams are [sock]: the next datagram, cut to [bufsize] bytes;
    the timeout expires when none is pending. *)
Definition recv (bufsize : Z) (sock : list bytes) : result (bytes * list bytes) :=
  match sock with
  | [] => Raise socket_timeout
  | datagram :: sock' => Ok (take (Z.to_nat bufsize) datagram, sock')
  end.

(** The part of [get_server_info_and_namelist] before the loop over the
    player names: the fields read so far and the data left. *)
Definition server_info_fields (sock : list bytes)
    : result (list (string * pyval) * bytes) :=
  '(data, _) ← recv 4096 sock;
  '(_, data, _) ← unpack_helper "bb" data;
  '(_, data, _) ← unpack_helper "bbb" data;
  '(gamemode, data) ← getint data;
  '(nb_connected_clients, data) ← getint data;
  '(minutes_remaining, data) ← getint data;
  '(server_map, data) ← getstring data;
  '(server_description, data) ← getstring data;
  '(max_client, data) ← getint data;
  '(mastermode, data) ← resolve_mastermode data;
  mret ([("gamemode", gamemode);
         ("mastermode", mastermode);
         ("nb_connected_clients", nb_connected_clients);
         ("minutes_remaining", minutes_remaining);
         ("server_map", PStr server_map);
         ("server_description", PStr server_description);
         ("max_client", max_client)]%string, data).

Definition get_server_info_and_namelist (fuel : nat) (sock : list bytes)
    : option (result (gmap string pyval)) :=
  match server_info_fields sock with
  | Raise e => Some (Raise e)
  | Ok (fields, data) =>
      match playerlist_loop fuel data [] with
      | None => None
      | Some (Raise e) => Some (Raise e)
      | Some (Ok playerlist) =>
          Some (Ok (list_to_map (fields ++ [("playerlist"%string, PList playerlist)])))
      end
  end.

Definition read_player_data (player_data : bytes) : result (gmap string pyval) :=
  if bool_decide (length player_data < 20)%nat then mret ∅
  else
    '(_, player_data, _) ← unpack_helper "bb" player_data;
    '(_, player_data, _) ← unpack_helper "bbb" player_data;
    '(_, player_data, _) ← unpack_helper "bb" player_data;
    '(client_number, player_data) ← getint player_data;
    '(ping, player_data) ← getint player_data;
    '(name, player_data) ← getstring player_data;
    '(team, player_data) ← getstring player_data;
    '(frags, player_data) ← getint player_data;
    '(flags, player_data) ← getint player_data;
    '(deaths, player_data) ← getint player_data;
    '(teamkills, player_data) ← getint player_data;
    '(accuracy, player_data) ← getint player_data;
    '(health, player_data) ← getint player_data;
    '(armour, player_data) ← getint player_data;
    '(gun, player_data) ← getint player_data;
    '(role, player_data) ← getint player_data;
    '(state, player_data) ← getint player_data;
    '(ip_tuple, player_data, _) ← unpack_helper "BBB" player_data;
    octets ← mapM str ip_tuple;
    let ip := join "." octets +:+ ".0" in
    '(damage, player_data) ← getint player_data;
    '(shotdamage, player_data) ← getint player_data;
    mret (list_to_map
      [("client_number", client_number);
       ("ping", ping);
       ("name", PStr name);
       ("team", PStr team);
       ("frags", frags);
       ("flags", flags);
       ("deaths", deaths);
       ("teamkills", teamkills);
       ("accuracy", accuracy);
       ("health", health);
       ("armour", armour);
       ("gun", gun);
       ("role", role);
       ("state", state);
       ("ip", PStr ip);
       ("damage", damage)]%string).

(** The loop [while data_client_number] of [get_playerstats]. *)
Equations? client_number_loop (data_client_number : bytes)
    (client_number_list : list pyval) : result (list pyval)
    by wf (length data_client_number) lt :=
  client_number_loop [] client_number_list := Ok client_number_list;
  client_number_loop data client_number_list with Logic.inspect (getint data) := {
    | exist _ (Raise e) _ => Raise e
    | exist _ (Ok (client_number, data')) Hint =>
        client_number_loop data' (client_number_list ++ [client_number]) }.
Proof.
  revert Hint. unfold getint. simpl. rewrite drop_0.
  destruct (signed8 b =? -128); simpl.
  - destruct l as [|b1 [|b2 l]]; simpl; try discriminate.
    intros [= _ <-]. rewrite drop_0. simpl. lia.
  - intros [= _ <-]. simpl. lia.
Qed.

(** [dict_player_data] is kept when it has a non-empty name. *)
Definition has_name (dict_player_data : gmap string pyval) : bool :=
  match dict_player_data !! "name"%string with
  | Some name => negb (py_eq name (PStr ""))
  | None => false
  end.

(** The loop [for client_number in client_number_list]. *)
Fixpoint players_stats_loop (client_number_list : list pyval)
    (sock : list bytes) (players_stats : list (gmap string pyval))
    : result (list (gmap string pyval)) :=
  match client_number_list with
  | [] => Ok players_stats
  | client_number :: client_number_list' =>
      '(player_data, sock) ← recv 65535 sock;
      dict_player_data ← read_player_data player_data;
      let players_stats :=
        if has_name dict_player_data
        then players_stats ++ [dict_player_data]
        else players_stats in
      players_stats_loop client_number_list' sock players_stats
  end.

(** The client numbers that the header datagram [data_client_number] of
    a player-stats answer lists. *)
Definition client_numbers (data_client_number : bytes) : result (list pyval) :=
  '(_, data_client_number, _) ← unpack_helper "bb" data_client_number;
  '(_, data_client_number, _) ← unpack_helper "bbb" data_client_number;
  '(ext_playerstats_resp_ids, data_client_number, _) ←
    unpack_helper "bb" data_client_number;
  (* the test of [ext_playerstats_resp_ids[1]] evaluates the item, then
     only prints *)
  _ ← getitem ext_playerstats_resp_ids 1;
  client_number_loop data_client_number [].

Definition get_playerstats (sock : list bytes)
    : result (list (gmap string pyval)) :=
  '(data_client_number, sock) ← recv 4096 sock;
  client_number_list ← client_numbers data_client_number;
  players_stats_loop client_number_list sock [].

End Decoders.

(** ** Sample datagrams *)

(** [struct.pack("H", n)] in the native byte order. *)
Definition pack_H (bo : byteorder) (lo hi : byte) : bytes :=
  match bo with
  | little => [lo; hi]
  | big => [hi; lo]
  end.

(** The two bytes of the query code, the three of the protocol version and
    the two of the answer kind that start a player-stats datagram. *)
Definition stats_header (kind : byte) : bytes :=
  [x00; x01; x00; x00; x00; x00; kind].

(** The record of client 2: ping 50, name "Alice", team "CLA", 3 frags,
    0 flags, 1 death, 0 teamkills, accuracy 45, health 100, armour 0, gun 5,
    role 0, state 0, address 10.0.0, damage 120, shot damage 300 (escaped). *)
Definition alice_datagram (bo : byteorder) : bytes :=
  stats_header xf5 ++
  [x02; x32] ++
  [x41; x6c; x69; x63; x65; x00] ++
  [x43; x4c; x41; x00] ++
  [x03; x00; x01; x00; x2d; x64; x00; x05; x00; x00] ++
  [x0a; x00; x00] ++
  [x78] ++
  (x80 :: pack_H bo x2c x01).

(** A record of 20 bytes that stops in the middle of an escaped integer:
    its last byte is the escape byte -128 of the field [role]. *)
Definition truncated_datagram : bytes :=
  stats_header xf5 ++
  [x02; x32; x00; x00; x03; x00; x01; x00; x2d; x64; x00; x05; x80].

(** A complete record of client 7 whose name is empty. *)
Definition nameless_datagram : bytes :=
  stats_header xf5 ++
  [x07; x32; x00; x00] ++
  [x03; x00; x01; x00; x2d; x64; x00; x05; x00; x00] ++
  [x0a; x00; x00] ++ [x78; x79].

(** A header datagram that lists the given client numbers (each below 128). *)
Definition ids_datagram (ids : bytes) : bytes := stats_header xf6 ++ ids.

(** A server-info datagram: game mode 5, 3 clients, 10 minutes left, map
    "A", description "B", 16 clients at most, mode pair (0, 1), followed by
    [names]. *)
Definition info_datagram (names : bytes) : bytes :=
  [x01; x01; x00; x00; x00] ++
  [x05; x03; x0a] ++ [x41; x00] ++ [x42; x00] ++ [x10] ++ [x00; x01] ++ names.

(** The names [names], each followed by its zero byte. *)
Fixpoint names_bytes (names : list bytes) : bytes :=
  match names with
  | [] => []
  | name :: names' => name ++ x00 :: names_bytes names'
  end.

(** ** What [getstring] reads *)

(** The bytes of [data] before its first zero byte, all of [data] when it
    has none. *)
Fixpoint before_zero (data : bytes) : bytes :=
  match data with
  | [] => []
  | c :: rest => if Byte.eqb c x00 then [] else c :: before_zero rest
  end.

(** The bytes of [data] after its first zero byte, none when it has none. *)
Fixpoint after_zero (data : bytes) : bytes :=
  match data with
  | [] => []
  | c :: rest => if Byte.eqb c x00 then rest else after_zero rest
  end.

Definition is_ascii (c : byte) : bool := unsigned8 c <? 128.

(** The text of ASCII bytes. *)
Fixpoint text (payload : bytes) : string :=
  match payload with
  | [] => EmptyString
  | c :: payload' => String (ascii_of_byte c) (text payload')
  end.

(** ** Well-formed datagrams *)

(** The decimal text of an integer, as [str] prints it. *)
Definition decimal (n : Z) : string := NilZero.string_of_int (Z.to_int n).

(** A player record whose integers take one byte each: a header of seven
    bytes, the client number and the ping, the name and the team with their
    zero bytes, the ten statistics, the three bytes of the address, the
    damage and the shot damage. *)
Definition record_datagram (header : bytes) (client_number ping : byte)
    (name team : bytes)
    (frags flags deaths teamkills accuracy health armour gun role state : byte)
    (ip0 ip1 ip2 damage shotdamage : byte) : bytes :=
  header ++ [client_number; ping] ++ name ++ [x00] ++ team ++ [x00] ++
  [frags; flags; deaths; teamkills; accuracy; health; armour; gun; role; state] ++
  [ip0; ip1; ip2] ++ [damage; shotdamage].

(** The table of the server modes: the value that stands for the pair
    [(m0, m1)] of mode bytes when [m0] is not the escape. *)
Definition mode_of_pair (m0 m1 : Z) : pyval :=
  if (m0 =? 0) && (m1 =? 1) || (m0 =? 1) && (m1 =? 1) then PStr "open"
  else if (m0 =? 64) && (m1 =? 1) || (m0 =? 65) && (m1 =? 1) then PStr "private"
  else PTuple [PInt m0; PInt m1].

(** A server-info answer whose integers take one byte each: a header of
    five bytes, the game mode, the number of clients and the minutes left,
    the map and the description with their zero bytes, the maximum number
    of clients, the two mode bytes, the names and the closing zero byte. *)
Definition server_info_datagram (header : bytes)
    (gamemode nb_connected_clients minutes_remaining : byte)
    (server_map server_description : bytes) (max_client m0 m1 : byte)
    (names : list bytes) : bytes :=
  header ++ [gamemode; nb_connected_clients; minutes_remaining] ++
  server_map ++ [x00] ++ server_description ++ [x00] ++
  [max_client] ++ [m0; m1] ++ names_bytes names ++ [x00].

(** ** The primitive decoders *)

Section Primitives.

Context (bo : byteorder).

Lemma bind_Ok {A B} (m : result A) (f : A → result B) b :
  m ≫= f = Ok b → ∃ a, m = Ok a ∧ f a = Ok b.
Proof. destruct m as [a|e]; [eauto | discriminate]. Qed.

Lemma signed8_sentinel b : signed8 b = -128 ↔ b = x80.
Proof. split; [|by intros ->]. destruct b; vm_compute; congruence. Qed.

Lemma unsigned8_range b : 0 ≤ unsigned8 b < 256.
Proof.
  unfold unsigned8. pose proof (Byte.to_N_bounded b). lia.
Qed.

Lemma getchar_nil : getchar bo [] = Raise struct_error.
Proof. reflexivity. Qed.

Lemma getchar_cons c rest : getchar bo (c :: rest) = Ok (PChar c, rest).
Proof. reflexivity. Qed.

Lemma getint_nil : getint bo [] = Raise struct_error.
Proof. reflexivity. Qed.

Lemma getint_small b rest :
  signed8 b ≠ -128 → getint bo (b :: rest) = Ok (PInt (signed8 b), rest).
Proof.
  intros Hb. unfold getint. simpl.
  destruct (Z.eqb_spec (signed8 b) (-128)); [done | reflexivity].
Qed.

Lemma getint_escape b0 b1 rest :
  getint bo (x80 :: b0 :: b1 :: rest) = Ok (PInt (unsigned16 bo b0 b1), rest).
Proof. reflexivity. Qed.

Lemma getint_truncated rest :
  (length rest < 2)%nat → getint bo (x80 :: rest) = Raise struct_error.
Proof.
  destruct rest as [|b0 [|b1 rest]]; simpl; [reflexivity .. | lia].
Qed.

End Primitives.

(** ** String decoding *)

Section Strings.

Context (bo : byteorder).

Lemma getstring_loop_nil my_string :
  getstring_loop bo my_string [] = Ok (my_string, []).
Proof. by simp getstring_loop. Qed.

(** One turn of the loop of [getstring], on data that is not empty. *)
Lemma getstring_loop_cons my_string c rest :
  getstring_loop bo my_string (c :: rest) =
    if Byte.eqb c x00 then Ok (my_string, rest)
    else if is_ascii c
         then getstring_loop bo (my_string +:+ String (ascii_of_byte c) EmptyString) rest
         else Raise UnicodeDecodeError.
Proof.
  simp getstring_loop. simpl. 
  destruct (Byte.eqb c x00); [done|].
  unfold is_ascii, unsigned8. by destruct (_ <? _).
Qed.

Lemma append_one (s : string) a (t : string) :
  (s +:+ String a EmptyString) +:+ t = s +:+ String a t.
Proof.
  induction s as [|a' s IH]; [reflexivity|].
  change (String a' ((s +:+ String a EmptyString) +:+ t) = String a' (s +:+ String a t)).
  by rewrite IH.
Qed.

Lemma append_empty (s : string) : s +:+ EmptyString = s.
Proof.
  induction s as [|a s IH]; [reflexivity|].
  change (String a (s +:+ EmptyString) = String a s). by rewrite IH.
Qed.

(** The loop of [getstring] in one equation: it reads the bytes before the
    first zero byte and fails on the first of them that is not ASCII. *)
Lemma getstring_loop_eq my_string data :
  getstring_loop bo my_string data =
    if forallb is_ascii (before_zero data)
    then Ok (my_string +:+ text (before_zero data), after_zero data)
    else Raise UnicodeDecodeError.
Proof.
  revert my_string. induction data as [|c rest IH]; intros my_string.
  - rewrite getstring_loop_nil. simpl. by rewrite append_empty.
  - rewrite getstring_loop_cons. simpl.
    destruct (Byte.eqb c x00); simpl; [by rewrite append_empty|].
    destruct (is_ascii c); simpl; [|done].
    rewrite IH. destruct (forallb _ _); [|done]. by rewrite append_one.
Qed.

Lemma getstring_eq data :
  getstring bo data =
    if forallb is_ascii (before_zero data)
    then Ok (text (before_zero data), after_zero data)
    else Raise UnicodeDecodeError.
Proof. unfold getstring. by rewrite getstring_loop_eq. Qed.

Lemma eqb_x00 c : Byte.eqb c x00 = bool_decide (c = x00).
Proof.
  case_bool_decide as Hc.
  - by apply Byte.byte_dec_lb.
  - destruct (Byte.eqb c x00) eqn:E; [|done]. by apply Byte.byte_dec_bl in E.
Qed.

Lemma before_zero_app pre rest :
  x00 ∉ pre → before_zero (pre ++ x00 :: rest) = pre.
Proof.
  induction pre as [|c pre IH]; intros Hpre; simpl; [done|].
  rewrite eqb_x00. apply not_elem_of_cons in Hpre as [Hc Hpre].
  rewrite bool_decide_false by done. by rewrite IH.
Qed.

Lemma after_zero_app pre rest :
  x00 ∉ pre → after_zero (pre ++ x00 :: rest) = rest.
Proof.
  induction pre as [|c pre IH]; intros Hpre; simpl; [done|].
  rewrite eqb_x00. apply not_elem_of_cons in Hpre as [Hc Hpre].
  rewrite bool_decide_false by done. by rewrite IH.
Qed.

Lemma before_zero_all data : x00 ∉ data → before_zero data = data.
Proof.
  induction data as [|c data IH]; intros Hdata; simpl; [done|].
  rewrite eqb_x00. apply not_elem_of_cons in Hdata as [Hc Hdata].
  rewrite bool_decide_false by done. by rewrite IH.
Qed.

Lemma after_zero_all data : x00 ∉ data → after_zero data = [].
Proof.
  induction data as [|c data IH]; intros Hdata; simpl; [done|].
  rewrite eqb_x00. apply not_elem_of_cons in Hdata as [Hc Hdata].
  rewrite bool_decide_false by done. by apply IH.
Qed.

Lemma forallb_is_ascii payload :
  forallb is_ascii payload = true ↔ Forall (λ c, unsigned8 c < 128) payload.
Proof.
  rewrite forallb_forall, Forall_forall. unfold is_ascii.
  split; intros H c Hc.
  - apply Z.ltb_lt, H. by apply list_elem_of_In.
  - apply Z.ltb_lt, H. by apply list_elem_of_In.
Qed.

Lemma not_forallb_is_ascii payload :
  forallb is_ascii payload = false ↔ Exists (λ c, 128 ≤ unsigned8 c) payload.
Proof.
  induction payload as [|c payload IH]; simpl.
  - split; [done | by intros ?%Exists_nil].
  - rewrite Exists_cons, andb_false_iff, IH. unfold is_ascii.
    by rewrite Z.ltb_ge.
Qed.

Lemma getstring_app pre rest :
  x00 ∉ pre → Forall (λ c, unsigned8 c < 128) pre →
  getstring bo (pre ++ x00 :: rest) = Ok (text pre, rest).
Proof.
  intros Hzero Hascii%forallb_is_ascii. rewrite getstring_eq.
  rewrite before_zero_app, after_zero_app by done. by rewrite Hascii.
Qed.

Lemma getstring_all pre :
  x00 ∉ pre → Forall (λ c, unsigned8 c < 128) pre →
  getstring bo pre = Ok (text pre, []).
Proof.
  intros Hzero Hascii%forallb_is_ascii. rewrite getstring_eq.
  rewrite before_zero_all, after_zero_all by done. by rewrite Hascii.
Qed.

End Strings.

(** ** The claims on the primitive decoders *)

(** C1. On data whose first byte is [b]: when [b], read as a signed byte, is
    not -128, [getint] returns it and consumes exactly one byte; when it is
    -128, [getint] drops it, returns the next two bytes read as an unsigned
    16-bit integer, and consumes exactly three bytes. *)
Theorem getint_decodes bo (data : bytes) b :
  data !! 0%nat = Some b →
  (signed8 b ≠ -128 → getint bo data = Ok (PInt (signed8 b), drop 1 data)) ∧
  (signed8 b = -128 → ∀ b0 b1,
     data !! 1%nat = Some b0 → data !! 2%nat = Some b1 →
     getint bo data = Ok (PInt (unsigned16 bo b0 b1), drop 3 data)).
Proof.
  destruct data as [|b' rest]; [done|]. intros [= ->]. split.
  - intros Hb. by rewrite getint_small.
  - intros ->%signed8_sentinel b0 b1 H0 H1.
    destruct rest as [|? [|? rest]]; simplify_eq/=.
    apply getint_escape.
Qed.

Lemma getint_decodes_witness :
  getint little [x05; x07] = Ok (PInt 5, [x07]) ∧
  getint big [x80; x01; x2c; x07] = Ok (PInt 300, [x07]).
Proof.
  split.
  - apply (getint_decodes little [x05; x07] x05); [reflexivity|].
    vm_compute. discriminate.
  - apply (proj2 (getint_decodes big [x80; x01; x2c; x07] x80 eq_refl)
             eq_refl x01 x2c); reflexivity.
Defined.

(** C7, as the code has it.  When the bytes [pre] before the first zero byte
    are ASCII, [getstring] stops exactly at that zero byte, consumes it
    without putting it in the text and leaves the bytes [rest] after it
    untouched; on ASCII bytes [pre] without a zero byte it consumes them all
    and returns their whole text. *)
Theorem getstring_stops_at_zero bo (pre rest : bytes) :
  x00 ∉ pre →
  Forall (λ c, unsigned8 c < 128) pre →
  getstring bo (pre ++ x00 :: rest) = Ok (text pre, rest) ∧
  getstring bo pre = Ok (text pre, []).
Proof.
  intros Hzero Hascii. split.
  - by apply getstring_app.
  - by apply getstring_all.
Qed.

Lemma getstring_stops_at_zero_witness :
  getstring little [x41; x42; x00; x00; x43] = Ok ("AB"%string, [x00; x43]) ∧
  getstring little [x41; x42] = Ok ("AB"%string, []).
Proof.
  apply (getstring_stops_at_zero little [x41; x42] [x00; x43]).
  - compute_done.
  - compute_done.
Defined.

(** C7 as stated fails: the two bytes of a UTF-8 "é" in front of the zero
    byte make [getstring] raise instead of stopping at the zero byte. *)
Lemma getstring_raises_before_zero :
  x00 ∈ [xc3; xa9; x00; x41] ∧
  getstring little [xc3; xa9; x00; x41] = Raise UnicodeDecodeError.
Proof. split; [set_solver | reflexivity]. Qed.

(** C9. [getstring] succeeds exactly when every byte before the first zero
    byte (before the end of the data when there is none) is below 0x80, and
    a byte from 0x80 to 0xFF there makes it raise [UnicodeDecodeError]. *)
Theorem getstring_succeeds_iff_ascii bo (data : bytes) :
  ((∃ r, getstring bo data = Ok r) ↔
     Forall (λ c, unsigned8 c < 128) (before_zero data)) ∧
  (getstring bo data = Raise UnicodeDecodeError ↔
     Exists (λ c, 128 ≤ unsigned8 c) (before_zero data)).
Proof.
  rewrite getstring_eq, <- forallb_is_ascii, <- not_forallb_is_ascii.
  destruct (forallb is_ascii (before_zero data)); split; split;
    try done; eauto.
  by intros [r ?].
Qed.

(** ** One player record *)

Section PlayerRecord.

Context (bo : byteorder).

(** Peel the binds of a computation that is known to return. *)
Ltac bind_inv H :=
  repeat (apply bind_Ok in H as [? [? H]];
          repeat match goal with
                 | x : (_ * _)%type |- _ => destruct x
                 end;
          cbv beta iota zeta in H).

(** A datagram of 20 bytes or more that decodes gives the sixteen entries
    of the dictionary, with a string under "name" and "ip". *)
Lemma read_player_data_long data d :
  (20 ≤ length data)%nat →
  read_player_data bo data = Ok d →
  ∃ client_number ping name team frags flags deaths teamkills accuracy
    health armour gun role state ip damage,
    d = list_to_map
          [("client_number", client_number); ("ping", ping);
           ("name", PStr name); ("team", PStr team); ("frags", frags);
           ("flags", flags); ("deaths", deaths); ("teamkills", teamkills);
           ("accuracy", accuracy); ("health", health); ("armour", armour);
           ("gun", gun); ("role", role); ("state", state); ("ip", PStr ip);
           ("damage", damage)]%string.
Proof.
  intros Hlen. unfold read_player_data.
  rewrite bool_decide_false by lia. intros H.
  bind_inv H. injection H as <-. eauto 20.
Qed.

Lemma read_player_data_short data :
  (length data < 20)%nat → read_player_data bo data = Ok ∅.
Proof.
  intros Hlen. unfold read_player_data. by rewrite bool_decide_true.
Qed.

(** The returned dictionary never has an entry for the shot damage. *)
Lemma read_player_data_no_shotdamage data d :
  read_player_data bo data = Ok d → d !! "shotdamage"%string = None.
Proof.
  intros Hd. destruct (decide (length data < 20)%nat) as [Hlen|Hlen].
  - rewrite read_player_data_short in Hd by done. by injection Hd as <-.
  - apply read_player_data_long in Hd; [|lia].
    destruct Hd as (?&?&?&?&?&?&?&?&?&?&?&?&?&?&?&?&->). reflexivity.
Qed.

(** A decoded datagram is either the empty dictionary of a short datagram
    or a dictionary with a string under "name". *)
Lemma read_player_data_name data d :
  read_player_data bo data = Ok d →
  (d = ∅ ∧ (length data < 20)%nat) ∨
  (∃ name, d !! "name"%string = Some (PStr name) ∧ (20 ≤ length data)%nat).
Proof.
  intros Hd. destruct (decide (length data < 20)%nat) as [Hlen|Hlen].
  - rewrite read_player_data_short in Hd by done. left. by injection Hd as <-.
  - right. apply read_player_data_long in Hd; [|lia].
    destruct Hd as (?&?&name&?&?&?&?&?&?&?&?&?&?&?&?&?&->).
    exists name. split; [reflexivity | lia].
Qed.

End PlayerRecord.

(** C3, where the code departs from the claim.  On the record of Alice, in
    either byte order, [read_player_data] returns the fields of the record
    with the address "10.0.0.0", but the shot damage 300, which it decodes,
    is not in the dictionary it returns. *)
Theorem read_player_data_alice bo :
  read_player_data bo (alice_datagram bo) =
    Ok (list_to_map
          [("client_number", PInt 2); ("ping", PInt 50);
           ("name", PStr "Alice"); ("team", PStr "CLA"); ("frags", PInt 3);
           ("flags", PInt 0); ("deaths", PInt 1); ("teamkills", PInt 0);
           ("accuracy", PInt 45); ("health", PInt 100); ("armour", PInt 0);
           ("gun", PInt 5); ("role", PInt 0); ("state", PInt 0);
           ("ip", PStr "10.0.0.0"); ("damage", PInt 120)]%string) ∧
  (read_player_data bo (alice_datagram bo)
     ≫= λ d, mret (d !! "shotdamage"%string)) = Ok None.
Proof. destruct bo; split; vm_compute; reflexivity. Qed.

(** C8. A datagram of fewer than 20 bytes gives the empty dictionary, the
    result for an incomplete record: no exception, no byte read. *)
Theorem read_player_data_incomplete bo (player_data : bytes) :
  (length player_data < 20)%nat → read_player_data bo player_data = Ok ∅.
Proof. apply read_player_data_short. Qed.

Lemma read_player_data_incomplete_witness :
  read_player_data little (stats_header xf5 ++ [x02; x32; x41]) = Ok ∅.
Proof.
  apply (read_player_data_incomplete little). simpl. lia.
Defined.

(** C10. The test of the length does not guarantee a full decode: the
    datagram [truncated_datagram] has 20 bytes, ends with the escape byte
    -128, and makes [read_player_data] raise [struct.error]; and the empty
    dictionary is returned only for datagrams of fewer than 20 bytes. *)
Theorem length_check_does_not_prevent_truncation bo :
  (length truncated_datagram = 20%nat ∧
   last truncated_datagram = Some x80 ∧
   read_player_data bo truncated_datagram = Raise struct_error) ∧
  (∀ data, read_player_data bo data = Ok ∅ ↔ (length data < 20)%nat).
Proof.
  split.
  - by destruct bo.
  - intros data. split; [|apply read_player_data_short].
    intros Hd. apply read_player_data_name in Hd as [[_ ?]|[name [Hname _]]].
    + done.
    + by rewrite lookup_empty in Hname.
Qed.

(** ** The mode of the server *)

Section Mastermode.

Context (bo : byteorder).

Lemma resolve_mastermode_sentinel b c d rest :
  resolve_mastermode bo (x80 :: b :: c :: d :: rest) = Ok (PStr "match", rest).
Proof. reflexivity. Qed.

Lemma resolve_mastermode_truncated b rest :
  (length rest < 2)%nat →
  resolve_mastermode bo (x80 :: b :: rest) = Raise struct_error.
Proof.
  destruct rest as [|c [|d rest]]; simpl; [reflexivity .. | lia].
Qed.

Lemma resolve_mastermode_pair a b rest :
  signed8 a ≠ -128 →
  resolve_mastermode bo (a :: b :: rest) =
    Ok (if (signed8 a =? 0) && (signed8 b =? 1) || (signed8 a =? 1) && (signed8 b =? 1)
        then PStr "open"
        else if (signed8 a =? 64) && (signed8 b =? 1) || (signed8 a =? 65) && (signed8 b =? 1)
        then PStr "private"
        else PTuple [PInt (signed8 a); PInt (signed8 b)], rest).
Proof.
  intros Ha. unfold resolve_mastermode. simpl.
  destruct (Z.eqb_spec (signed8 a) (-128)); [done|]. simpl.
  rewrite !andb_true_r, !orb_false_r. reflexivity.
Qed.

End Mastermode.

(** C6, as the code has it.  The mode is a function of the two mode bytes
    [a], [b] and of the data after them.  When [a] is -128 and two more
    bytes follow, exactly those two bytes are consumed and the mode is
    "match"; when fewer than two bytes follow, [struct.error] is raised.
    Otherwise nothing more is consumed: the pairs (0,1) and (1,1) give
    "open", (64,1) and (65,1) give "private", and every other pair is
    returned as it is. *)
Theorem resolve_mastermode_table bo (a b : byte) (rest : bytes) :
  (signed8 a = -128 → ∀ c d rest', rest = c :: d :: rest' →
     resolve_mastermode bo (a :: b :: rest) = Ok (PStr "match", rest')) ∧
  (signed8 a = -128 → (length rest < 2)%nat →
     resolve_mastermode bo (a :: b :: rest) = Raise struct_error) ∧
  ((signed8 a, signed8 b) ∈ [(0, 1); (1, 1)] →
     resolve_mastermode bo (a :: b :: rest) = Ok (PStr "open", rest)) ∧
  ((signed8 a, signed8 b) ∈ [(64, 1); (65, 1)] →
     resolve_mastermode bo (a :: b :: rest) = Ok (PStr "private", rest)) ∧
  (signed8 a ≠ -128 →
   (signed8 a, signed8 b) ∉ [(0, 1); (1, 1); (64, 1); (65, 1)] →
     resolve_mastermode bo (a :: b :: rest) =
       Ok (PTuple [PInt (signed8 a); PInt (signed8 b)], rest)).
Proof.
  repeat split.
  - intros ->%signed8_sentinel c d rest' ->. apply resolve_mastermode_sentinel.
  - intros ->%signed8_sentinel Hrest. by apply resolve_mastermode_truncated.
  - intros Hin. set_unfold in Hin.
    destruct Hin as [[= Ha Hb]|[[= Ha Hb]|[]]];
      (rewrite resolve_mastermode_pair by (by rewrite Ha)); by rewrite Ha, Hb.
  - intros Hin. set_unfold in Hin.
    destruct Hin as [[= Ha Hb]|[[= Ha Hb]|[]]];
      (rewrite resolve_mastermode_pair by (by rewrite Ha)); by rewrite Ha, Hb.
  - intros Ha Hnotin. rewrite resolve_mastermode_pair by done.
    set_unfold in Hnotin.
    destruct (Z.eqb_spec (signed8 a) 0), (Z.eqb_spec (signed8 b) 1),
      (Z.eqb_spec (signed8 a) 1), (Z.eqb_spec (signed8 a) 64),
      (Z.eqb_spec (signed8 a) 65); simpl; try reflexivity;
      exfalso; apply Hnotin; naive_solver congruence.
Qed.

(** C6 as stated fails: a pair whose first byte is -128 and that ends the
    data, or is followed by one byte only, does not give "match" but the
    exception [struct.error]. *)
Lemma resolve_mastermode_not_total :
  resolve_mastermode little [x80; x00] = Raise struct_error ∧
  resolve_mastermode little [x80; x00; x01] = Raise struct_error.
Proof. split; reflexivity. Qed.

(** ** The list of player names *)

Section Playerlist.

Context (bo : byteorder).

Lemma getstring_empty : getstring bo [] = Ok (EmptyString, []).
Proof. by rewrite getstring_eq. Qed.

(** The loop stops on the single zero byte. *)
Lemma playerlist_loop_stops fuel playerlist :
  playerlist_loop bo (S fuel) [x00] playerlist = Some (Ok playerlist).
Proof. reflexivity. Qed.

(** On data that is exhausted the test [data != b"\\x00"] holds for ever:
    each turn reads the empty string and leaves the data empty. *)
Lemma playerlist_loop_empty fuel playerlist :
  playerlist_loop bo fuel [] playerlist = None.
Proof.
  revert playerlist. induction fuel as [|fuel IH]; intros playerlist; [done|].
  simpl. rewrite getstring_empty. apply IH.
Qed.

Lemma server_info_fields_names names sock :
  (length names ≤ 4000)%nat →
  ∃ fields, server_info_fields bo (info_datagram names :: sock) = Ok (fields, names).
Proof.
  intros Hlen. eexists. unfold server_info_fields, recv, info_datagram.
  rewrite take_ge by (rewrite !length_app; simpl; lia).
  reflexivity.
Qed.

(** On a list of names that the zero byte closes, the loop stops and has
    appended every name in order. *)
Lemma playerlist_loop_names names fuel playerlist :
  Forall (λ name, (x00 ∉ name) ∧ Forall (λ c, unsigned8 c < 128) name) names →
  (length names < fuel)%nat →
  playerlist_loop bo fuel (names_bytes names ++ [x00]) playerlist =
    Some (Ok (playerlist ++ ((λ name, PStr (text name)) <$> names))).
Proof.
  intros Hnames. revert fuel playerlist.
  induction Hnames as [|name names [Hzero Hascii] _ IH]; intros fuel playerlist Hfuel.
  - destruct fuel as [|fuel]; [simpl in Hfuel; lia|].
    simpl. by rewrite app_nil_r.
  - destruct fuel as [|fuel]; [simpl in Hfuel; lia|].
    simpl in *. rewrite bool_decide_true.
    + rewrite <- app_assoc. simpl. rewrite getstring_app by done.
      rewrite IH by lia. by rewrite <- app_assoc.
    + intros Heq%(f_equal length). rewrite !length_app in Heq.
      simpl in Heq. lia.
Qed.

End Playerlist.

(** C2, where the code departs from the claim.  The loop over the player
    names stops on the single zero byte, but not on data that is exhausted:
    there it never stops, whatever the number of turns it is given.  On a
    datagram whose list of names is the one name "A" with its zero byte and
    nothing after it, [get_server_info_and_namelist] therefore does not
    return. *)
Theorem playerlist_loop_diverges_on_exhausted_data bo :
  (∀ fuel playerlist,
     playerlist_loop bo (S fuel) [x00] playerlist = Some (Ok playerlist)) ∧
  (∀ fuel playerlist, playerlist_loop bo fuel [] playerlist = None) ∧
  (∀ fuel, get_server_info_and_namelist bo fuel [info_datagram [x41; x00]] = None).
Proof.
  split; [|split].
  - apply playerlist_loop_stops.
  - apply playerlist_loop_empty.
  - intros fuel. unfold get_server_info_and_namelist.
    destruct (server_info_fields_names bo [x41; x00] []) as [fields ->];
      [simpl; lia|].
    destruct fuel as [|fuel]; [done|].
    simpl. rewrite getstring_eq. simpl.
    by rewrite playerlist_loop_empty.
Qed.

(** ** The roster of player records *)

Section Roster.

Context (bo : byteorder).

Lemma recv_cons bufsize datagram sock :
  recv bufsize (datagram :: sock) = Ok (take (Z.to_nat bufsize) datagram, sock).
Proof. reflexivity. Qed.

Lemma get_playerstats_cons hdr sock :
  get_playerstats bo (hdr :: sock) =
    client_numbers bo (take (Z.to_nat 4096) hdr) ≫= λ client_number_list,
    players_stats_loop bo client_number_list sock [].
Proof. reflexivity. Qed.

Lemma players_stats_loop_cons id ids datagram sock players_stats :
  players_stats_loop bo (id :: ids) (datagram :: sock) players_stats =
    read_player_data bo (take (Z.to_nat 65535) datagram) ≫= λ dict_player_data,
    players_stats_loop bo ids sock
      (if has_name dict_player_data
       then players_stats ++ [dict_player_data] else players_stats).
Proof. reflexivity. Qed.

Lemma has_name_empty : has_name ∅ = false.
Proof. reflexivity. Qed.

(** On a decoded record, the test of the loop rejects exactly the empty
    dictionary and the dictionaries with an empty name. *)
Lemma has_name_decoded data d :
  read_player_data bo data = Ok d →
  has_name d = bool_decide (¬ (d = ∅ ∨ d !! "name"%string = Some (PStr ""))).
Proof.
  intros [[-> _]|[name [Hname _]]]%read_player_data_name.
  - rewrite has_name_empty. symmetry. apply bool_decide_false. tauto.
  - unfold has_name. rewrite Hname. simpl.
    destruct (decide (name = ""%string)) as [->|Hne].
    + symmetry. apply bool_decide_false. tauto.
    + rewrite (bool_decide_false (name = ""%string)) by done. symmetry.
      apply bool_decide_true. intros [->|[=]]; [|done].
      by rewrite lookup_empty in Hname.
Qed.

(** A short datagram takes one turn of the loop and leaves no record. *)
Lemma players_stats_loop_short ids1 id ids2 pre short post players_stats :
  length pre = length ids1 →
  (length short < 20)%nat →
  players_stats_loop bo (ids1 ++ id :: ids2) (pre ++ short :: post) players_stats =
  players_stats_loop bo (ids1 ++ ids2) (pre ++ post) players_stats.
Proof.
  intros Hpre Hshort. revert pre Hpre players_stats.
  induction ids1 as [|id1 ids1 IH]; intros [|r pre] Hpre players_stats;
    simpl in Hpre; simplify_eq; cbn [app].
  - rewrite players_stats_loop_cons.
    rewrite read_player_data_short by (rewrite length_take; lia).
    simpl. by rewrite has_name_empty.
  - rewrite !players_stats_loop_cons.
    destruct (read_player_data bo _) as [d|e]; simpl; [|done].
    by apply IH.
Qed.

(** A datagram of 20 bytes or more that does not decode ends the loop with
    its exception, whatever follows. *)
Lemma players_stats_loop_raises ids1 id ids2 pre bad post players_stats dicts e :
  length pre = length ids1 →
  mapM (λ r, read_player_data bo (take (Z.to_nat 65535) r)) pre = Ok dicts →
  read_player_data bo (take (Z.to_nat 65535) bad) = Raise e →
  players_stats_loop bo (ids1 ++ id :: ids2) (pre ++ bad :: post) players_stats =
    Raise e.
Proof.
  intros Hpre Hdicts Hbad. revert pre Hpre dicts Hdicts players_stats.
  induction ids1 as [|id1 ids1 IH]; intros [|r pre] Hpre dicts Hdicts players_stats;
    simpl in Hpre; simplify_eq; cbn [app].
  - rewrite players_stats_loop_cons. by rewrite Hbad.
  - rewrite players_stats_loop_cons. simpl in Hdicts.
    apply bind_Ok in Hdicts as (d & -> & Hdicts).
    apply bind_Ok in Hdicts as (ds & Hds & _). simpl. by eapply IH.
Qed.

(** When every datagram decodes, the loop returns the decoded records that
    pass its test, in the order of arrival. *)
Lemma players_stats_loop_filter ids recs rest dicts players_stats :
  length recs = length ids →
  mapM (λ r, read_player_data bo (take (Z.to_nat 65535) r)) recs = Ok dicts →
  players_stats_loop bo ids (recs ++ rest) players_stats =
    Ok (players_stats ++
        filter (λ d, ¬ (d = ∅ ∨ d !! "name"%string = Some (PStr ""))) dicts).
Proof.
  revert recs dicts players_stats.
  induction ids as [|id ids IH]; intros [|r recs] dicts players_stats Hlen Hdicts;
    simpl in Hlen, Hdicts; simplify_eq; cbn [app].
  - injection Hdicts as <-. simpl. by rewrite app_nil_r.
  - rewrite players_stats_loop_cons.
    apply bind_Ok in Hdicts as (d & Hd & Hdicts).
    apply bind_Ok in Hdicts as (ds & Hds & [= <-]).
    rewrite Hd. simpl. rewrite (IH recs ds) by done.
    rewrite (has_name_decoded _ _ Hd).
    case_bool_decide as Hkeep.
    + rewrite filter_cons_True by done. by rewrite <- app_assoc.
    + rewrite filter_cons_False by tauto. done.
Qed.

End Roster.

(** C4, as the code has it.  A record datagram of fewer than 20 bytes is
    dropped and nothing else: the answer to the exchange, roster or
    exception, is the one of the exchange without that datagram and without
    its place in the list of client numbers. *)
Theorem get_playerstats_drops_short_record bo
    (hdr hdr' : bytes) (ids1 : list pyval) (id : pyval) (ids2 : list pyval)
    (pre : list bytes) (short : bytes) (post : list bytes) :
  client_numbers bo (take (Z.to_nat 4096) hdr) = Ok (ids1 ++ id :: ids2) →
  client_numbers bo (take (Z.to_nat 4096) hdr') = Ok (ids1 ++ ids2) →
  length pre = length ids1 →
  (length short < 20)%nat →
  get_playerstats bo (hdr :: pre ++ short :: post) =
  get_playerstats bo (hdr' :: pre ++ post).
Proof.
  intros Hhdr Hhdr' Hpre Hshort.
  rewrite !get_playerstats_cons, Hhdr, Hhdr'. simpl.
  by apply players_stats_loop_short.
Qed.

Lemma get_playerstats_drops_short_record_witness :
  get_playerstats little
    (ids_datagram [x02; x05] :: [] ++ (stats_header xf5 ++ [x02]) :: [alice_datagram little]) =
  get_playerstats little (ids_datagram [x05] :: [] ++ [alice_datagram little]).
Proof.
  apply (get_playerstats_drops_short_record little
           (ids_datagram [x02; x05]) (ids_datagram [x05])
           [] (PInt 2) [PInt 5] [] (stats_header xf5 ++ [x02])
           [alice_datagram little]).
  - vm_compute. reflexivity.
  - vm_compute. reflexivity.
  - reflexivity.
  - simpl. lia.
Defined.

(** C4 as stated fails: the record [truncated_datagram] has 20 bytes and
    cannot be decoded; it is not dropped, the whole exchange raises
    [struct.error], although the record after it is a good one. *)
Lemma get_playerstats_fails_on_truncated_record :
  get_playerstats little
    [ids_datagram [x02; x05]; truncated_datagram; alice_datagram little] =
    Raise struct_error ∧
  read_player_data little truncated_datagram = Raise struct_error ∧
  (∃ d, read_player_data little (alice_datagram little) = Ok d ∧ has_name d = true).
Proof.
  split; [|split].
  - vm_compute. reflexivity.
  - vm_compute. reflexivity.
  - eexists. split; vm_compute; reflexivity.
Qed.

(** C5, as the code has it.  When the header lists the client numbers [ids]
    and the record datagrams [recs], one per client number, decode to
    [dicts], the exchange returns the records of [dicts], in the order of
    arrival, without exactly those that are the empty dictionary of an
    incomplete record or have an empty name.  The roster is all that is
    returned: the list of client numbers is not part of the result. *)
Theorem get_playerstats_finalize bo
    (hdr : bytes) (ids : list pyval) (recs rest : list bytes)
    (dicts : list (gmap string pyval)) :
  client_numbers bo (take (Z.to_nat 4096) hdr) = Ok ids →
  length recs = length ids →
  mapM (λ r, read_player_data bo (take (Z.to_nat 65535) r)) recs = Ok dicts →
  get_playerstats bo (hdr :: recs ++ rest) =
    Ok (filter (λ d, ¬ (d = ∅ ∨ d !! "name"%string = Some (PStr ""))) dicts).
Proof.
  intros Hhdr Hlen Hdicts. rewrite get_playerstats_cons, Hhdr. simpl.
  by rewrite (players_stats_loop_filter bo ids recs rest dicts []).
Qed.

Lemma get_playerstats_finalize_witness :
  ∃ alice nameless,
    read_player_data little (alice_datagram little) = Ok alice ∧
    read_player_data little nameless_datagram = Ok nameless ∧
    nameless !! "name"%string = Some (PStr "") ∧
    get_playerstats little
      (ids_datagram [x02; x05; x07] ::
       [alice_datagram little; stats_header xf5; nameless_datagram] ++ []) =
      Ok (filter (λ d, ¬ (d = ∅ ∨ d !! "name"%string = Some (PStr "")))
            [alice; ∅; nameless]).
Proof.
  eexists _, _. split; [vm_compute; reflexivity|].
  split; [vm_compute; reflexivity|].
  split; [vm_compute; reflexivity|].
  apply (get_playerstats_finalize little
           (ids_datagram [x02; x05; x07]) [PInt 2; PInt 5; PInt 7]).
  - vm_compute. reflexivity.
  - reflexivity.
  - vm_compute. reflexivity.
Defined.

(** C5 as stated fails: the result does not hold the list of client
    numbers.  Two exchanges whose headers list different client numbers,
    followed by the same record, return the same thing. *)
Lemma get_playerstats_forgets_client_numbers :
  client_numbers little (ids_datagram [x02]) = Ok [PInt 2] ∧
  client_numbers little (ids_datagram [x05]) = Ok [PInt 5] ∧
  ∃ alice,
    get_playerstats little [ids_datagram [x02]; alice_datagram little] = Ok [alice] ∧
    get_playerstats little [ids_datagram [x05]; alice_datagram little] = Ok [alice].
Proof.
  split; [vm_compute; reflexivity|].
  split; [vm_compute; reflexivity|].
  eexists. split; vm_compute; reflexivity.
Qed.

(** * Further properties of the decoders *)

(** ** [unpack_helper] *)

Section Unpack.

Context (bo : byteorder).

Lemma calcsize_from_ge off cs : (off ≤ calcsize_from off cs)%nat.
Proof.
  revert off. induction cs as [|c cs IH]; intros off; simpl; [lia|].
  specialize (IH (off + padding off (item_size c) + item_size c)%nat). lia.
Qed.

(** A buffer of the size of the format always unpacks, to one item for each
    character of the format. *)
Lemma unpack_from_size off cs (buf : bytes) :
  length buf = (calcsize_from off cs - off)%nat →
  ∃ items, unpack_from bo off cs buf = Some items ∧ length items = length cs.
Proof.
  revert off buf. induction cs as [|c cs IH]; intros off buf Hlen; simpl.
  - by exists [].
  - set (pad := padding off (item_size c)).
    set (off' := (off + pad + item_size c)%nat).
    simpl in Hlen. fold pad off' in Hlen.
    pose proof (calcsize_from_ge off' cs) as Hge.
    assert (length (drop pad buf) = (item_size c + (calcsize_from off' cs - off'))%nat)
      as Hdrop by (rewrite length_drop; lia).
    destruct c; simpl in Hdrop.
    + destruct (drop pad buf) as [|x buf']; simplify_eq/=.
      destruct (IH off' buf') as (items & -> & Hitems); [lia|].
      simpl. eexists. split; [done|]. simpl. by rewrite Hitems.
    + destruct (drop pad buf) as [|x buf']; simplify_eq/=.
      destruct (IH off' buf') as (items & -> & Hitems); [lia|].
      simpl. eexists. split; [done|]. simpl. by rewrite Hitems.
    + destruct (drop pad buf) as [|x0 [|x1 buf']]; simplify_eq/=.
      destruct (IH off' buf') as (items & -> & Hitems); [lia|].
      simpl. eexists. split; [done|]. simpl. by rewrite Hitems.
    + destruct (drop pad buf) as [|x buf']; simplify_eq/=.
      destruct (IH off' buf') as (items & -> & Hitems); [lia|].
      simpl. eexists. split; [done|]. simpl. by rewrite Hitems.
Qed.

Lemma unpack_helper_enough fmt cs (data : bytes) :
  parse_fmt fmt = Some cs →
  (calcsize_from 0 cs ≤ length data)%nat →
  ∃ items,
    unpack_helper bo fmt data =
      Ok (items, drop (calcsize_from 0 cs) data, take (calcsize_from 0 cs) data) ∧
    length items = length cs.
Proof.
  intros Hfmt Hlen. unfold unpack_helper, struct_unpack, calcsize.
  rewrite Hfmt. simpl.
  rewrite bool_decide_true by (rewrite length_take; lia).
  destruct (unpack_from_size 0 cs (take (calcsize_from 0 cs) data))
    as (items & Hitems & Hn); [rewrite length_take; lia|].
  rewrite Hitems. simpl. by exists items.
Qed.

Lemma unpack_helper_short fmt cs (data : bytes) :
  parse_fmt fmt = Some cs →
  (length data < calcsize_from 0 cs)%nat →
  unpack_helper bo fmt data = Raise struct_error.
Proof.
  intros Hfmt Hlen. unfold unpack_helper, struct_unpack, calcsize.
  rewrite Hfmt. simpl.
  by rewrite bool_decide_false by (rewrite length_take; lia).
Qed.

End Unpack.

(** X1. For a format of the characters b, B, H and c, of size [n]:
    [unpack_helper] succeeds exactly on data of [n] bytes or more; it then
    returns one item for each character of the format, the data without its
    first [n] bytes and these [n] bytes, so that the bytes removed followed
    by the data returned are the data given; on shorter data it raises
    [struct.error]. *)
Theorem unpack_helper_splits bo (fmt : string) (cs : list fmt_char) (data : bytes) :
  parse_fmt fmt = Some cs →
  ((calcsize_from 0 cs ≤ length data)%nat →
     ∃ items rest taken,
       unpack_helper bo fmt data = Ok (items, rest, taken) ∧
       length items = length cs ∧
       length taken = calcsize_from 0 cs ∧
       taken ++ rest = data) ∧
  ((length data < calcsize_from 0 cs)%nat →
     unpack_helper bo fmt data = Raise struct_error).
Proof.
  intros Hfmt. split.
  - intros Hlen.
    destruct (unpack_helper_enough bo fmt cs data Hfmt Hlen) as (items & -> & Hitems).
    eexists _, _, _. split; [done|]. split; [done|].
    split; [rewrite length_take; lia | apply take_drop].
  - by apply unpack_helper_short.
Qed.

Lemma unpack_helper_splits_witness :
  (∃ items rest taken,
     unpack_helper little "bH" [x01; xff; x02; x00; x09] = Ok (items, rest, taken) ∧
     length items = 2%nat ∧ length taken = 4%nat ∧
     taken ++ rest = [x01; xff; x02; x00; x09]) ∧
  unpack_helper little "bH" [x01; xff; x02] = Raise struct_error.
Proof.
  pose proof (unpack_helper_splits little "bH" [fmt_b; fmt_H]
                [x01; xff; x02; x00; x09] eq_refl) as [Hok _].
  pose proof (unpack_helper_splits little "bH" [fmt_b; fmt_H]
                [x01; xff; x02] eq_refl) as [_ Hshort].
  split.
  - apply Hok. simpl. lia.
  - apply Hshort. simpl. lia.
Defined.

(** ** [getint] *)

Section Getint.

Context (bo : byteorder).

Lemma byte_of_unsigned8 z : 0 ≤ z < 256 → ∃ b, unsigned8 b = z.
Proof.
  intros Hz. destruct (Byte.of_N (Z.to_N z)) as [b|] eqn:Hb.
  - exists b. apply Byte.to_of_N in Hb. unfold unsigned8. rewrite Hb. lia.
  - apply Byte.of_N_None_iff in Hb. lia.
Qed.

Lemma signed8_range b : -128 ≤ signed8 b ≤ 127.
Proof.
  unfold signed8. pose proof (unsigned8_range b).
  destruct (Z.ltb_spec (unsigned8 b) 128); lia.
Qed.

Lemma unsigned16_range b0 b1 : 0 ≤ unsigned16 bo b0 b1 ≤ 65535.
Proof.
  pose proof (unsigned8_range b0). pose proof (unsigned8_range b1).
  unfold unsigned16. destruct bo; lia.
Qed.

(** The two ways in which [getint] returns. *)
Lemma getint_Ok data v rest :
  getint bo data = Ok (v, rest) →
  (∃ b, data = b :: rest ∧ signed8 b ≠ -128 ∧ v = PInt (signed8 b)) ∨
  (∃ b0 b1, data = x80 :: b0 :: b1 :: rest ∧ v = PInt (unsigned16 bo b0 b1)).
Proof.
  destruct data as [|b data]; [by rewrite getint_nil|].
  destruct (decide (signed8 b = -128)) as [Hb|Hb].
  - apply signed8_sentinel in Hb as ->.
    destruct data as [|b0 [|b1 data]].
    + by rewrite getint_truncated by (simpl; lia).
    + by rewrite getint_truncated by (simpl; lia).
    + rewrite getint_escape. intros [= <- <-]. right. by exists b0, b1.
  - rewrite getint_small by done. intros [= <- <-]. left. by exists b.
Qed.

Lemma getint_Raise data e :
  getint bo data = Raise e →
  e = struct_error ∧
  (data = [] ∨ ∃ rest, data = x80 :: rest ∧ (length rest < 2)%nat).
Proof.
  destruct data as [|b data].
  - rewrite getint_nil. intros [= <-]. auto.
  - destruct (decide (signed8 b = -128)) as [Hb|Hb].
    + apply signed8_sentinel in Hb as ->.
      destruct data as [|b0 [|b1 data]].
      * rewrite getint_truncated by (simpl; lia). intros [= <-].
        split; [done|]. right. eexists. split; [done|]. simpl. lia.
      * rewrite getint_truncated by (simpl; lia). intros [= <-].
        split; [done|]. right. eexists. split; [done|]. simpl. lia.
      * by rewrite getint_escape.
    + by rewrite getint_small.
Qed.

End Getint.

(** X2. When [getint] returns, the data it returns are the data given
    without their first byte, or without their first three bytes when the
    first is the escape byte 0x80; the value is an integer, the signed first
    byte or the unsigned 16-bit value of the two bytes after the escape. *)
Theorem getint_returns bo (data : bytes) (v : pyval) (rest : bytes) :
  getint bo data = Ok (v, rest) →
  (∃ b, data = b :: rest ∧ signed8 b ≠ -128 ∧ v = PInt (signed8 b)) ∨
  (∃ b0 b1, data = x80 :: b0 :: b1 :: rest ∧ v = PInt (unsigned16 bo b0 b1)).
Proof. apply getint_Ok. Qed.

Lemma getint_returns_witness :
  (∃ b, [x80; xff; xff; x07] = b :: [x07] ∧ signed8 b ≠ -128 ∧
        PInt 65535 = PInt (signed8 b)) ∨
  (∃ b0 b1, [x80; xff; xff; x07] = x80 :: b0 :: b1 :: [x07] ∧
            PInt 65535 = PInt (unsigned16 little b0 b1)).
Proof.
  apply (getint_returns little [x80; xff; xff; x07] (PInt 65535) [x07]).
  reflexivity.
Defined.

(** X3. [getint] raises nothing but [struct.error], and raises it exactly
    on empty data and on data that start with the escape byte 0x80 followed
    by fewer than two bytes. *)
Theorem getint_raises_iff bo (data : bytes) (e : exn) :
  getint bo data = Raise e ↔
  e = struct_error ∧
  (data = [] ∨ ∃ rest, data = x80 :: rest ∧ (length rest < 2)%nat).
Proof.
  split; [apply getint_Raise|].
  intros [-> [->|(rest & -> & Hrest)]].
  - apply getint_nil.
  - by apply getint_truncated.
Qed.

(** X4. The integers that [getint] can return are exactly those from -127
    to 65535: -128 is the escape, and a value after the escape is read as
    unsigned, so that no integer below -127 is ever decoded. *)
Theorem getint_range bo (n : Z) :
  (∃ data rest, getint bo data = Ok (PInt n, rest)) ↔ -127 ≤ n ≤ 65535.
Proof.
  split.
  - intros (data & rest & [(b & _ & Hb & [= ->])|(b0 & b1 & _ & [= ->])]%getint_Ok).
    + pose proof (signed8_range b). lia.
    + pose proof (unsigned16_range bo b0 b1). lia.
  - intros Hn. destruct (decide (n ≤ 127)) as [Hsmall|Hbig].
    + destruct (byte_of_unsigned8 (n `mod` 256)) as [b Hb];
        [apply Z.mod_pos_bound; lia|].
      assert (signed8 b = n) as Hs.
      { unfold signed8. rewrite Hb.
        destruct (Z.ltb_spec (n `mod` 256) 128) as [Hlt|Hge].
        - destruct (decide (0 ≤ n)).
          + apply Z.mod_small. lia.
          + rewrite <- (Z.mod_add n 1 256) in Hlt by lia.
            rewrite Z.mod_small in Hlt by lia. lia.
        - destruct (decide (0 ≤ n)).
          + rewrite Z.mod_small in Hge by lia. lia.
          + rewrite <- (Z.mod_add n 1 256) by lia.
            rewrite Z.mod_small by lia. lia. }
      exists [b], []. rewrite getint_small by lia. by rewrite Hs.
    + destruct (byte_of_unsigned8 (n `mod` 256)) as [lo Hlo];
        [apply Z.mod_pos_bound; lia|].
      destruct (byte_of_unsigned8 (n `div` 256)) as [hi Hhi].
      { split; [apply Z.div_pos; lia | apply Z.div_lt_upper_bound; lia]. }
      pose proof (Z.div_mod n 256 ltac:(lia)) as Hdm.
      destruct bo.
      * exists [x80; lo; hi], []. rewrite getint_escape.
        unfold unsigned16. rewrite Hlo, Hhi.
        by replace (n `mod` 256 + 256 * n `div` 256) with n by lia.
      * exists [x80; hi; lo], []. rewrite getint_escape.
        unfold unsigned16. rewrite Hlo, Hhi.
        by replace (256 * n `div` 256 + n `mod` 256) with n by lia.
Qed.

(** ** [getstring] and the loop over the player names *)

Section StringsMore.

Context (bo : byteorder).

Lemma before_zero_no_zero data : x00 ∉ before_zero data.
Proof.
  induction data as [|c data IH]; simpl; [by apply not_elem_of_nil|].
  rewrite eqb_x00. case_bool_decide as Hc; [by apply not_elem_of_nil|].
  apply not_elem_of_cons. split; [done | apply IH].
Qed.

(** The data are the bytes before the first zero byte, that byte and the
    bytes after it, or have no zero byte. *)
Lemma before_after_zero data :
  data = before_zero data ++ x00 :: after_zero data ∨
  (data = before_zero data ∧ after_zero data = []).
Proof.
  induction data as [|c data IH]; simpl; [by right|].
  rewrite eqb_x00. case_bool_decide as Hc.
  - left. by rewrite Hc.
  - destruct IH as [IH|[IH1 IH2]].
    + left. simpl. by rewrite <- IH.
    + right. by rewrite <- IH1.
Qed.

Lemma text_length payload : String.length (text payload) = length payload.
Proof. induction payload as [|c payload IH]; simpl; [done | by rewrite IH]. Qed.

Lemma getstring_Ok data s rest :
  getstring bo data = Ok (s, rest) →
  s = text (before_zero data) ∧ rest = after_zero data ∧
  Forall (λ c, unsigned8 c < 128) (before_zero data).
Proof.
  rewrite getstring_eq. destruct (forallb _ _) eqn:Hascii; [|done].
  intros [= <- <-]. by apply forallb_is_ascii in Hascii.
Qed.

Lemma getstring_Raise data e :
  getstring bo data = Raise e → e = UnicodeDecodeError.
Proof.
  rewrite getstring_eq. destruct (forallb _ _); [done|]. by intros [= <-].
Qed.

(** What is left of the names after the loop has run [fuel] turns. *)
Lemma playerlist_loop_Ok fuel data playerlist playerlist' :
  playerlist_loop bo fuel data playerlist = Some (Ok playerlist') →
  ∃ names,
    Forall (λ name, (x00 ∉ name) ∧ Forall (λ c, unsigned8 c < 128) name) names ∧
    data = names_bytes names ++ [x00] ∧
    (length names < fuel)%nat ∧
    playerlist' = playerlist ++ ((λ name, PStr (text name)) <$> names).
Proof.
  revert data playerlist.
  induction fuel as [|fuel IH]; intros data playerlist; simpl; [done|].
  case_bool_decide as Hdata.
  - destruct (getstring bo data) as [[player data']|e] eqn:Hget; [|done].
    intros (names & Hnames & Hdata' & Hfuel & ->)%IH.
    apply getstring_Ok in Hget as (-> & -> & Hascii).
    destruct (before_after_zero data) as [Hsplit|[_ Hnone]].
    + exists (before_zero data :: names). split; [|split; [|split]].
      * constructor; [|done]. split; [apply before_zero_no_zero | done].
      * simpl. rewrite <- app_assoc. simpl. by rewrite <- Hdata'.
      * simpl. lia.
      * simpl. by rewrite <- app_assoc.
    + rewrite Hnone in Hdata'. apply (f_equal length) in Hdata'.
      rewrite length_app in Hdata'. simpl in Hdata'. lia.
  - intros [= <-]. subst data.
    exists []. split; [done|]. split; [done|]. split; [simpl; lia|].
    simpl. by rewrite app_nil_r.
Qed.

End StringsMore.

(** X5. When [getstring] returns, the text has one character for each byte
    of a zero-free ASCII prefix [payload] of the data, and the data returned
    are what follows the zero byte that ends this prefix: the data given are
    [payload], a zero byte and the data returned, or they are [payload]
    alone, without any zero byte, and nothing is returned. *)
Theorem getstring_returns bo (data : bytes) (s : string) (rest : bytes) :
  getstring bo data = Ok (s, rest) →
  ∃ payload,
    s = text payload ∧ String.length s = length payload ∧
    (x00 ∉ payload) ∧ Forall (λ c, unsigned8 c < 128) payload ∧
    (data = payload ++ x00 :: rest ∨ (data = payload ∧ rest = [])).
Proof.
  intros (-> & -> & Hascii)%getstring_Ok. exists (before_zero data).
  split; [done|]. split; [apply text_length|].
  split; [apply before_zero_no_zero|]. split; [done|].
  apply before_after_zero.
Qed.

Lemma getstring_returns_witness :
  ∃ payload,
    "AB"%string = text payload ∧ String.length "AB" = length payload ∧
    (x00 ∉ payload) ∧ Forall (λ c, unsigned8 c < 128) payload ∧
    ([x41; x42; x00; x43] = payload ++ x00 :: [x43] ∨
     ([x41; x42; x00; x43] = payload ∧ [x43] = [])).
Proof.
  apply (getstring_returns little [x41; x42; x00; x43] "AB" [x43]).
  reflexivity.
Defined.

(** X6. The loop over the player names returns, within [fuel] tests of its
    condition, exactly on data that are a list of fewer than [fuel]
    zero-free ASCII names, each followed by a zero byte, and then one more
    zero byte; it then has appended the text of every name, in order.  On
    any other data it raises an exception or does not stop. *)
Theorem playerlist_loop_returns_iff bo (fuel : nat) (data : bytes)
    (playerlist playerlist' : list pyval) :
  playerlist_loop bo fuel data playerlist = Some (Ok playerlist') ↔
  ∃ names,
    Forall (λ name, (x00 ∉ name) ∧ Forall (λ c, unsigned8 c < 128) name) names ∧
    data = names_bytes names ++ [x00] ∧
    (length names < fuel)%nat ∧
    playerlist' = playerlist ++ ((λ name, PStr (text name)) <$> names).
Proof.
  split; [apply playerlist_loop_Ok|].
  intros (names & Hnames & -> & Hfuel & ->). by apply playerlist_loop_names.
Qed.

(** ** [read_player_data] on a well-formed record *)

Section RecordDecode.

Context (bo : byteorder).

Lemma list_length_7 {A} (l : list A) :
  length l = 7%nat → ∃ a0 a1 a2 a3 a4 a5 a6, l = [a0; a1; a2; a3; a4; a5; a6].
Proof.
  destruct l as [|a0 [|a1 [|a2 [|a3 [|a4 [|a5 [|a6 [|]]]]]]]]; try discriminate.
  intros _. by eexists _, _, _, _, _, _, _.
Qed.

Lemma signed8_not_sentinel b : b ≠ x80 → signed8 b ≠ -128.
Proof. intros Hb Hs. by apply signed8_sentinel in Hs. Qed.

Lemma getint_byte b rest :
  b ≠ x80 → getint bo (b :: rest) = Ok (PInt (signed8 b), rest).
Proof. intros Hb. by apply getint_small, signed8_not_sentinel. Qed.

Lemma getstring_cons_app pre rest :
  x00 ∉ pre → Forall (λ c, unsigned8 c < 128) pre →
  getstring bo (pre ++ x00 :: rest) = Ok (text pre, rest).
Proof. apply getstring_app. Qed.

Local Opaque getint getstring.

Lemma read_player_data_record header client_number ping name team
    frags flags deaths teamkills accuracy health armour gun role state
    ip0 ip1 ip2 damage shotdamage :
  length header = 7%nat →
  Forall (λ b, b ≠ x80)
    [client_number; ping; frags; flags; deaths; teamkills; accuracy; health;
     armour; gun; role; state; damage; shotdamage] →
  x00 ∉ name → Forall (λ c, unsigned8 c < 128) name →
  x00 ∉ team → Forall (λ c, unsigned8 c < 128) team →
  read_player_data bo
    (record_datagram header client_number ping name team frags flags deaths
       teamkills accuracy health armour gun role state ip0 ip1 ip2 damage
       shotdamage) =
    Ok (list_to_map
          [("client_number", PInt (signed8 client_number));
           ("ping", PInt (signed8 ping));
           ("name", PStr (text name)); ("team", PStr (text team));
           ("frags", PInt (signed8 frags)); ("flags", PInt (signed8 flags));
           ("deaths", PInt (signed8 deaths));
           ("teamkills", PInt (signed8 teamkills));
           ("accuracy", PInt (signed8 accuracy));
           ("health", PInt (signed8 health));
           ("armour", PInt (signed8 armour)); ("gun", PInt (signed8 gun));
           ("role", PInt (signed8 role)); ("state", PInt (signed8 state));
           ("ip", PStr (join "." [decimal (unsigned8 ip0);
                                  decimal (unsigned8 ip1);
                                  decimal (unsigned8 ip2)] +:+ ".0"));
           ("damage", PInt (signed8 damage))]%string).
Proof.
  intros Hheader Hints Hname Hname' Hteam Hteam'.
  apply list_length_7 in Hheader as (h0 & h1 & h2 & h3 & h4 & h5 & h6 & ->).
  repeat match goal with
         | H : Forall _ (_ :: _) |- _ => apply Forall_cons in H as [? H]
         end.
  unfold read_player_data, record_datagram.
  rewrite bool_decide_false
    by (simpl; rewrite !length_app; simpl; rewrite !length_app; simpl; lia).
  cbn [app]. simpl.
  do 2 (rewrite getint_byte by done; simpl).
  do 2 (rewrite getstring_cons_app by done; simpl).
  do 10 (rewrite getint_byte by done; simpl).
  do 2 (rewrite getint_byte by done; simpl).
  reflexivity.
Qed.

End RecordDecode.

(** X7. A record whose integers take one byte each (none is the escape
    byte), with a zero-free ASCII name and team, decodes to its fields: the
    integers as signed bytes, the texts of the name and of the team, and the
    address as the decimal values of its three bytes followed by ".0".  The
    header of seven bytes is skipped whatever it holds, and the shot damage
    is read but not returned. *)
Theorem read_player_data_decodes bo (header : bytes) (client_number ping : byte)
    (name team : bytes)
    (frags flags deaths teamkills accuracy health armour gun role state : byte)
    (ip0 ip1 ip2 damage shotdamage : byte) :
  length header = 7%nat →
  Forall (λ b, b ≠ x80)
    [client_number; ping; frags; flags; deaths; teamkills; accuracy; health;
     armour; gun; role; state; damage; shotdamage] →
  x00 ∉ name → Forall (λ c, unsigned8 c < 128) name →
  x00 ∉ team → Forall (λ c, unsigned8 c < 128) team →
  read_player_data bo
    (record_datagram header client_number ping name team frags flags deaths
       teamkills accuracy health armour gun role state ip0 ip1 ip2 damage
       shotdamage) =
    Ok (list_to_map
          [("client_number", PInt (signed8 client_number));
           ("ping", PInt (signed8 ping));
           ("name", PStr (text name)); ("team", PStr (text team));
           ("frags", PInt (signed8 frags)); ("flags", PInt (signed8 flags));
           ("deaths", PInt (signed8 deaths));
           ("teamkills", PInt (signed8 teamkills));
           ("accuracy", PInt (signed8 accuracy));
           ("health", PInt (signed8 health));
           ("armour", PInt (signed8 armour)); ("gun", PInt (signed8 gun));
           ("role", PInt (signed8 role)); ("state", PInt (signed8 state));
           ("ip", PStr (join "." [decimal (unsigned8 ip0);
                                  decimal (unsigned8 ip1);
                                  decimal (unsigned8 ip2)] +:+ ".0"));
           ("damage", PInt (signed8 damage))]%string).
Proof. apply read_player_data_record. Qed.

Lemma read_player_data_decodes_witness :
  read_player_data big
    (record_datagram (stats_header xf5) x09 xff [x42; x6f; x62] [x52]
       x01 x02 x03 x04 x05 x06 x07 x08 x00 x01 xc0 xa8 x01 x7f x81) =
    Ok (list_to_map
          [("client_number", PInt (signed8 x09));
           ("ping", PInt (signed8 xff));
           ("name", PStr (text [x42; x6f; x62])); ("team", PStr (text [x52]));
           ("frags", PInt (signed8 x01)); ("flags", PInt (signed8 x02));
           ("deaths", PInt (signed8 x03));
           ("teamkills", PInt (signed8 x04));
           ("accuracy", PInt (signed8 x05));
           ("health", PInt (signed8 x06));
           ("armour", PInt (signed8 x07)); ("gun", PInt (signed8 x08));
           ("role", PInt (signed8 x00)); ("state", PInt (signed8 x01));
           ("ip", PStr (join "." [decimal (unsigned8 xc0);
                                  decimal (unsigned8 xa8);
                                  decimal (unsigned8 x01)] +:+ ".0"));
           ("damage", PInt (signed8 x7f))]%string).
Proof.
  apply (read_player_data_decodes big (stats_header xf5)).
  - reflexivity.
  - compute_done.
  - compute_done.
  - compute_done.
  - compute_done.
  - compute_done.
Defined.

(** ** What the decoders consume and raise *)

Lemma bind_Raise {A B} (m : result A) (f : A → result B) e :
  m ≫= f = Raise e → m = Raise e ∨ ∃ a, m = Ok a ∧ f a = Raise e.
Proof.
  destruct m as [a|e']; intros H; [right; by exists a|].
  left. by injection H as ->.
Qed.

(** Peel the binds of a computation that returns. *)
Ltac peel_binds H :=
  repeat (apply bind_Ok in H as [? [? H]];
          repeat match goal with
                 | x : (_ * _)%type |- _ => destruct x
                 end;
          cbv beta iota zeta in H).

Section Consumption.

Context (bo : byteorder).

Lemma unpack_helper_Ok_length fmt cs data items rest taken :
  parse_fmt fmt = Some cs →
  unpack_helper bo fmt data = Ok (items, rest, taken) →
  length data = (calcsize_from 0 cs + length rest)%nat ∧
  length items = length cs.
Proof.
  intros Hfmt Hok.
  destruct (decide (calcsize_from 0 cs ≤ length data)%nat) as [Hlen|Hlen].
  - destruct (unpack_helper_enough bo fmt cs data Hfmt Hlen) as (items' & Heq & Hn).
    rewrite Heq in Hok. injection Hok as <- <- <-.
    rewrite length_drop. split; [lia | done].
  - by rewrite (unpack_helper_short bo fmt cs) in Hok by (done || lia).
Qed.

Lemma unpack_helper_Raise fmt cs data e :
  parse_fmt fmt = Some cs →
  unpack_helper bo fmt data = Raise e → e = struct_error.
Proof.
  intros Hfmt Hraise.
  destruct (decide (calcsize_from 0 cs ≤ length data)%nat) as [Hlen|Hlen].
  - destruct (unpack_helper_enough bo fmt cs data Hfmt Hlen) as (items' & Heq & _).
    by rewrite Heq in Hraise.
  - rewrite (unpack_helper_short bo fmt cs) in Hraise by (done || lia).
    by injection Hraise as <-.
Qed.

Lemma getint_Ok_length data v rest :
  getint bo data = Ok (v, rest) →
  (length rest < length data)%nat ∧ ∃ n, v = PInt n.
Proof.
  intros [(b & -> & _ & ->)|(b0 & b1 & -> & ->)]%getint_Ok;
    (split; [simpl; lia | eauto]).
Qed.

Lemma after_zero_length data :
  data = [] ∨ (length (after_zero data) < length data)%nat.
Proof.
  induction data as [|c data IH]; [by left|]. right. simpl.
  destruct (Byte.eqb c x00); [lia|].
  destruct IH as [->|IH]; simpl; lia.
Qed.

Lemma getstring_Ok_length data s rest :
  getstring bo data = Ok (s, rest) →
  (data = [] ∧ rest = []) ∨ (length rest < length data)%nat.
Proof.
  intros (_ & -> & _)%getstring_Ok.
  destruct (after_zero_length data) as [->|Hlt]; [by left | by right].
Qed.

(** A record that decodes has 26 bytes at least. *)
Lemma read_player_data_Ok_length data d :
  (20 ≤ length data)%nat →
  read_player_data bo data = Ok d → (26 ≤ length data)%nat.
Proof.
  intros Hlen. unfold read_player_data.
  rewrite bool_decide_false by lia. intros H. peel_binds H.
  repeat match goal with
         | H : unpack_helper _ _ _ = Ok _ |- _ =>
             eapply unpack_helper_Ok_length in H as [H _]; [|reflexivity];
             simpl in H
         | H : getint _ _ = Ok _ |- _ => apply getint_Ok_length in H as [H _]
         | H : getstring _ _ = Ok _ |- _ => apply getstring_Ok_length in H
         end.
  repeat match goal with
         | H : (_ = [] ∧ _ = []) ∨ _ |- _ => destruct H as [[-> ->]|H]
         end; simpl in *; lia.
Qed.

End Consumption.

(** X8. The test of 20 bytes at the head of [read_player_data] is not the
    size of a record: a datagram that decodes to a record has 26 bytes at
    least, so every datagram of 20 to 25 bytes raises an exception. *)
Theorem read_player_data_returns_length bo (player_data : bytes)
    (d : gmap string pyval) :
  read_player_data bo player_data = Ok d →
  (length player_data < 20 ∧ d = ∅)%nat ∨ (26 ≤ length player_data)%nat.
Proof.
  intros Hd. destruct (decide (length player_data < 20)%nat) as [Hlen|Hlen].
  - left. split; [done|].
    rewrite read_player_data_short in Hd by done. by injection Hd as <-.
  - right. eapply read_player_data_Ok_length; [lia | done].
Qed.

Lemma read_player_data_returns_length_witness :
  (length (stats_header xf5) < 20 ∧ (∅ : gmap string pyval) = ∅)%nat ∨
  (26 ≤ length (stats_header xf5))%nat.
Proof.
  apply (read_player_data_returns_length little (stats_header xf5) ∅).
  reflexivity.
Defined.

Section Raises.

Context (bo : byteorder).

Lemma unpack_BBB_items data items rest taken :
  unpack_helper bo "BBB" data = Ok (items, rest, taken) →
  ∃ a b c, items = [PInt a; PInt b; PInt c].
Proof.
  destruct data as [|a [|b [|c data]]]; try discriminate.
  intros [= <- _ _]. eauto.
Qed.

(** Follow a computation that raises down to the call that raises. *)
Ltac raise_chain H :=
  first
    [ discriminate H
    | apply bind_Raise in H as [H | (? & ? & H)];
      [ first
          [ eapply unpack_helper_Raise in H; [|reflexivity]; subst; auto
          | apply getint_Raise in H as [H _]; subst; auto
          | apply getstring_Raise in H; subst; auto
          | match goal with
            | Hu : unpack_helper _ "BBB" _ = Ok (?l, _, _) |- _ =>
                apply unpack_BBB_items in Hu as (? & ? & ? & ->);
                discriminate H
            end ]
      | repeat match goal with
               | x : (_ * _)%type |- _ => destruct x
               end;
        cbv beta iota zeta in H; raise_chain H ] ].

Lemma read_player_data_Raise data e :
  read_player_data bo data = Raise e →
  (20 ≤ length data)%nat ∧ (e = struct_error ∨ e = UnicodeDecodeError).
Proof.
  unfold read_player_data. case_bool_decide as Hlen; [done|].
  intros H. split; [lia|]. raise_chain H.
Qed.

(** One turn of the loop over the client numbers. *)
Lemma client_number_loop_turn data client_number_list :
  client_number_loop bo data client_number_list =
    match data with
    | [] => Ok client_number_list
    | _ :: _ =>
        getint bo data ≫= λ '(client_number, data'),
        client_number_loop bo data' (client_number_list ++ [client_number])
    end.
Proof.
  funelim (client_number_loop bo data client_number_list).
  - reflexivity.
  - match goal with Hget : getint _ _ = _ |- _ => by rewrite Hget end.
  - match goal with Hget : getint _ _ = _ |- _ => by rewrite Hget end.
Qed.

End Raises.

(** X9. [read_player_data] raises only on a datagram of 20 bytes or more,
    and then only [struct.error] (the data end inside a field) or
    [UnicodeDecodeError] (a byte of the name or of the team is not ASCII):
    no other exception leaves it. *)
Theorem read_player_data_raises bo (player_data : bytes) (e : exn) :
  read_player_data bo player_data = Raise e →
  (20 ≤ length player_data)%nat ∧ (e = struct_error ∨ e = UnicodeDecodeError).
Proof. apply read_player_data_Raise. Qed.

Lemma read_player_data_raises_witness :
  (20 ≤ length truncated_datagram)%nat ∧
  (struct_error = struct_error ∨ struct_error = UnicodeDecodeError).
Proof.
  apply (read_player_data_raises little truncated_datagram struct_error).
  vm_compute. reflexivity.
Defined.

(** ** The header of a player-stats answer *)

Section ClientNumbers.

Context (bo : byteorder).

Local Opaque client_number_loop.

(** Client numbers of one byte each are returned as they come. *)
Lemma client_number_loop_bytes ids client_number_list :
  Forall (λ b, b ≠ x80) ids →
  client_number_loop bo ids client_number_list =
    Ok (client_number_list ++ ((λ b, PInt (signed8 b)) <$> ids)).
Proof.
  intros Hids. revert client_number_list.
  induction Hids as [|b ids Hb _ IH]; intros client_number_list;
    rewrite client_number_loop_turn.
  - simpl. by rewrite app_nil_r.
  - rewrite getint_byte by done. simpl. rewrite IH. by rewrite <- app_assoc.
Qed.


Lemma client_numbers_header header ids :
  length header = 7%nat →
  client_numbers bo (header ++ ids) = client_number_loop bo ids [].
Proof.
  intros (h0 & h1 & h2 & h3 & h4 & h5 & h6 & ->)%list_length_7.
  reflexivity.
Qed.

Lemma client_numbers_short data :
  (length data < 7)%nat → client_numbers bo data = Raise struct_error.
Proof.
  intros Hlen.
  do 7 (destruct data as [|? data]; [reflexivity|]). simpl in Hlen. lia.
Qed.


End ClientNumbers.

(** X10. The header datagram of a player-stats answer: with fewer than 7
    bytes [struct.error] is raised; otherwise the first 7 bytes are skipped,
    whatever they hold (the answer kind is not checked), and when every
    byte after them is a client number of one byte (none is the escape
    byte), the client numbers are these bytes, signed, in order. *)
Theorem client_numbers_decodes bo (data : bytes) :
  ((length data < 7)%nat → client_numbers bo data = Raise struct_error) ∧
  (∀ header ids,
     data = header ++ ids → length header = 7%nat →
     Forall (λ b, b ≠ x80) ids →
     client_numbers bo data = Ok ((λ b, PInt (signed8 b)) <$> ids)).
Proof.
  split; [apply client_numbers_short|].
  intros header ids -> Hheader Hids.
  rewrite client_numbers_header by done.
  by rewrite client_number_loop_bytes.
Qed.

(** ** The exchange of [get_playerstats] *)

Section Exchange.

Context (bo : byteorder).

(** The records that the loop keeps have a name that is not empty. *)
Lemma has_name_true data d :
  read_player_data bo data = Ok d → has_name d = true →
  ∃ name, d !! "name"%string = Some (PStr name) ∧ name ≠ ""%string.
Proof.
  intros [[-> _]|[name [Hname _]]]%read_player_data_name Hkeep.
  - by rewrite has_name_empty in Hkeep.
  - exists name. split; [done|]. intros ->.
    unfold has_name in Hkeep. by rewrite Hname in Hkeep.
Qed.

Lemma players_stats_loop_Ok ids sock players_stats roster :
  players_stats_loop bo ids sock players_stats = Ok roster →
  (length ids ≤ length sock)%nat ∧
  (length roster ≤ length players_stats + length ids)%nat ∧
  (Forall (λ d, ∃ name, d !! "name"%string = Some (PStr name) ∧ name ≠ ""%string)
     players_stats →
   Forall (λ d, ∃ name, d !! "name"%string = Some (PStr name) ∧ name ≠ ""%string)
     roster).
Proof.
  revert sock players_stats.
  induction ids as [|id ids IH]; intros sock players_stats.
  - intros [= <-]. simpl. split; [lia|]. split; [lia | done].
  - destruct sock as [|datagram sock]; [done|].
    rewrite players_stats_loop_cons.
    intros (d & Hd & Hloop)%bind_Ok.
    apply IH in Hloop as (Hsock & Hlen & Hnames).
    split; [simpl; lia|]. split.
    + destruct (has_name d); [rewrite length_app in Hlen|]; simpl in *; lia.
    + intros Hstats. apply Hnames.
      destruct (has_name d) eqn:Hkeep; [|done].
      apply Forall_app. split; [done|].
      apply Forall_singleton. by eapply has_name_true.
Qed.

(** The timeout of the socket ends the loop when the datagrams run out. *)
Lemma players_stats_loop_timeout ids recs dicts players_stats :
  mapM (λ r, read_player_data bo (take (Z.to_nat 65535) r)) recs = Ok dicts →
  (length recs < length ids)%nat →
  players_stats_loop bo ids recs players_stats = Raise socket_timeout.
Proof.
  revert recs dicts players_stats.
  induction ids as [|id ids IH]; intros recs dicts players_stats Hdicts Hlen;
    [simpl in Hlen; lia|].
  destruct recs as [|r recs]; [done|].
  rewrite players_stats_loop_cons. simpl in Hdicts.
  apply bind_Ok in Hdicts as (d & -> & Hdicts).
  apply bind_Ok in Hdicts as (ds & Hds & _). simpl.
  eapply IH; [done | simpl in Hlen; lia].
Qed.


End Exchange.

(** X11. When the header lists more client numbers than record datagrams
    arrive, and the datagrams that arrive decode, [get_playerstats] returns
    no partial roster: the timeout of the socket is raised. *)
Theorem get_playerstats_times_out bo (hdr : bytes) (ids : list pyval)
    (recs : list bytes) (dicts : list (gmap string pyval)) :
  client_numbers bo (take (Z.to_nat 4096) hdr) = Ok ids →
  mapM (λ r, read_player_data bo (take (Z.to_nat 65535) r)) recs = Ok dicts →
  (length recs < length ids)%nat →
  get_playerstats bo (hdr :: recs) = Raise socket_timeout.
Proof.
  intros Hhdr Hdicts Hlen. rewrite get_playerstats_cons, Hhdr. simpl.
  by eapply players_stats_loop_timeout.
Qed.

Lemma get_playerstats_times_out_witness :
  get_playerstats little [ids_datagram [x02; x05]; stats_header xf5] =
    Raise socket_timeout.
Proof.
  eapply (get_playerstats_times_out little (ids_datagram [x02; x05])
            [PInt 2; PInt 5] [stats_header xf5] [∅]).
  - reflexivity.
  - reflexivity.
  - simpl. lia.
Defined.

(** X12. Whenever [get_playerstats] returns a roster, a header datagram was
    received, its client numbers are at most as many as the datagrams that
    followed it, the roster has at most one record for each client number,
    and every record of the roster has a name that is a non-empty string. *)
Theorem get_playerstats_roster bo (sock : list bytes)
    (roster : list (gmap string pyval)) :
  get_playerstats bo sock = Ok roster →
  ∃ hdr recs ids,
    sock = hdr :: recs ∧
    client_numbers bo (take (Z.to_nat 4096) hdr) = Ok ids ∧
    (length roster ≤ length ids ≤ length recs)%nat ∧
    Forall (λ d, ∃ name, d !! "name"%string = Some (PStr name) ∧ name ≠ ""%string)
      roster.
Proof.
  destruct sock as [|hdr recs]; [done|].
  rewrite get_playerstats_cons.
  intros (ids & Hids & (Hsock & Hlen & Hnames)%players_stats_loop_Ok)%bind_Ok.
  exists hdr, recs, ids. split; [done|]. split; [done|].
  split; [simpl in Hlen; lia | by apply Hnames].
Qed.

Lemma get_playerstats_roster_witness :
  ∃ hdr recs ids,
    [ids_datagram [x07]; stats_header xf5; nameless_datagram] = hdr :: recs ∧
    client_numbers big (take (Z.to_nat 4096) hdr) = Ok ids ∧
    (length ([] : list (gmap string pyval)) ≤ length ids ≤ length recs)%nat ∧
    Forall (λ d : gmap string pyval,
              ∃ name, d !! "name"%string = Some (PStr name) ∧ name ≠ ""%string)
      [].
Proof.
  apply (get_playerstats_roster big
           [ids_datagram [x07]; stats_header xf5; nameless_datagram]).
  reflexivity.
Defined.



(** ** [get_server_info_and_namelist] on a well-formed answer *)

Section ServerInfo.

Context (bo : byteorder).

Lemma list_length_5 {A} (l : list A) :
  length l = 5%nat → ∃ a0 a1 a2 a3 a4, l = [a0; a1; a2; a3; a4].
Proof.
  destruct l as [|a0 [|a1 [|a2 [|a3 [|a4 [|]]]]]]; try discriminate.
  intros _. by eexists _, _, _, _, _.
Qed.

Lemma resolve_mastermode_mode m0 m1 rest :
  m0 ≠ x80 →
  resolve_mastermode bo (m0 :: m1 :: rest) =
    Ok (mode_of_pair (signed8 m0) (signed8 m1), rest).
Proof.
  intros Hm0. rewrite resolve_mastermode_pair by by apply signed8_not_sentinel.
  reflexivity.
Qed.

Local Opaque getint getstring resolve_mastermode.

Lemma server_info_fields_datagram header gamemode nb_connected_clients
    minutes_remaining server_map server_description max_client m0 m1 names sock :
  length header = 5%nat →
  Forall (λ b, b ≠ x80)
    [gamemode; nb_connected_clients; minutes_remaining; max_client; m0] →
  x00 ∉ server_map → Forall (λ c, unsigned8 c < 128) server_map →
  x00 ∉ server_description →
  Forall (λ c, unsigned8 c < 128) server_description →
  (length (server_info_datagram header gamemode nb_connected_clients
             minutes_remaining server_map server_description max_client m0 m1
             names) ≤ Z.to_nat 4096)%nat →
  server_info_fields bo
    (server_info_datagram header gamemode nb_connected_clients
       minutes_remaining server_map server_description max_client m0 m1 names
     :: sock) =
    Ok ([("gamemode", PInt (signed8 gamemode));
         ("mastermode", mode_of_pair (signed8 m0) (signed8 m1));
         ("nb_connected_clients", PInt (signed8 nb_connected_clients));
         ("minutes_remaining", PInt (signed8 minutes_remaining));
         ("server_map", PStr (text server_map));
         ("server_description", PStr (text server_description));
         ("max_client", PInt (signed8 max_client))]%string,
        names_bytes names ++ [x00]).
Proof.
  intros (h0 & h1 & h2 & h3 & h4 & ->)%list_length_5 Hints Hmap Hmap' Hdesc Hdesc' Hlen.
  repeat match goal with
         | H : Forall _ (_ :: _) |- _ => apply Forall_cons in H as [? H]
         end.
  unfold server_info_fields. rewrite recv_cons, take_ge by done.
  unfold server_info_datagram. cbn [app]. simpl.
  do 3 (rewrite getint_byte by done; simpl).
  do 2 (rewrite getstring_cons_app by done; simpl).
  rewrite getint_byte by done; simpl.
  rewrite resolve_mastermode_mode by done. reflexivity.
Qed.

End ServerInfo.

(** X14. A server-info answer of at most 4096 bytes whose integers take one
    byte each (none is the escape byte), with a zero-free ASCII map name and
    description, and whose names are zero-free ASCII names, each followed by
    a zero byte, with one more zero byte at the end, is decoded in a number
    of turns of the name loop above the number of names: the result holds
    the integers as signed bytes, the two texts, the mode given by the table
    for the two mode bytes, and the list of the names in order.  The five
    bytes of the header are skipped whatever they hold. *)
Theorem get_server_info_and_namelist_decodes bo (fuel : nat) (header : bytes)
    (gamemode nb_connected_clients minutes_remaining : byte)
    (server_map server_description : bytes) (max_client m0 m1 : byte)
    (names : list bytes) (sock : list bytes) :
  length header = 5%nat →
  Forall (λ b, b ≠ x80)
    [gamemode; nb_connected_clients; minutes_remaining; max_client; m0] →
  x00 ∉ server_map → Forall (λ c, unsigned8 c < 128) server_map →
  x00 ∉ server_description →
  Forall (λ c, unsigned8 c < 128) server_description →
  Forall (λ name, (x00 ∉ name) ∧ Forall (λ c, unsigned8 c < 128) name) names →
  (length (server_info_datagram header gamemode nb_connected_clients
             minutes_remaining server_map server_description max_client m0 m1
             names) ≤ Z.to_nat 4096)%nat →
  (length names < fuel)%nat →
  get_server_info_and_namelist bo fuel
    (server_info_datagram header gamemode nb_connected_clients
       minutes_remaining server_map server_description max_client m0 m1 names
     :: sock) =
    Some (Ok (list_to_map
      [("gamemode", PInt (signed8 gamemode));
       ("mastermode", mode_of_pair (signed8 m0) (signed8 m1));
       ("nb_connected_clients", PInt (signed8 nb_connected_clients));
       ("minutes_remaining", PInt (signed8 minutes_remaining));
       ("server_map", PStr (text server_map));
       ("server_description", PStr (text server_description));
       ("max_client", PInt (signed8 max_client));
       ("playerlist", PList ((λ name, PStr (text name)) <$> names))]%string)).
Proof.
  intros Hheader Hints Hmap Hmap' Hdesc Hdesc' Hnames Hlen Hfuel.
  unfold get_server_info_and_namelist.
  rewrite server_info_fields_datagram by done.
  by rewrite playerlist_loop_names.
Qed.

Lemma get_server_info_and_namelist_decodes_witness :
  get_server_info_and_namelist little 3
    (server_info_datagram [x01; x01; x00; x00; x00] x05 x02 x0a
       [x61; x63] [x68; x69] x10 x40 x01 [[x41; x6c]; [x42]] :: []) =
    Some (Ok (list_to_map
      [("gamemode", PInt (signed8 x05));
       ("mastermode", mode_of_pair (signed8 x40) (signed8 x01));
       ("nb_connected_clients", PInt (signed8 x02));
       ("minutes_remaining", PInt (signed8 x0a));
       ("server_map", PStr (text [x61; x63]));
       ("server_description", PStr (text [x68; x69]));
       ("max_client", PInt (signed8 x10));
       ("playerlist",
        PList ((λ name, PStr (text name)) <$> [[x41; x6c]; [x42]]))]%string)).
Proof.
  apply (get_server_info_and_namelist_decodes little 3
           [x01; x01; x00; x00; x00]).
  - reflexivity.
  - compute_done.
  - compute_done.
  - compute_done.
  - compute_done.
  - compute_done.
  - compute_done.
  - simpl. lia.
  - simpl. lia.
Defined.

Section ServerInfoRaises.

Context (bo : byteorder).




End ServerInfoRaises.


